(** * PostgreSQL MCP server: the tool layer of [server.py]

    A shallow embedding of the five tools of [server.py] ([execute_query],
    [list_tables], [get_table_schema], [filter_instances],
    [get_database_stats]) and of the code they share, followed by the
    properties of the tool layer.

    The tools talk to the database through the pg8000 driver.  Each driver
    call is an event of a small program monad ([prog]); a [handler] plays the
    driver and the database behind it, and [run] records which calls were
    made and how each ended.  Python exceptions are values of [exn]; a call
    that fails hands its exception to the program, which re-raises it unless
    it sits under [try_except]. *)

From Stdlib Require Import ZArith String Ascii List Bool Lia.
From stdpp Require Import base option list strings sorting.

Set Warnings "-register-all".

Local Open Scope Z_scope.
Local Open Scope string_scope.
Local Open Scope list_scope.

(** ** Python values *)

(** The values that cross the tool boundary: what the driver hands back in a
    row and what a tool returns (JSON-shaped). A [VDict] keeps its items in
    insertion order, as a Python [dict] does. *)
Inductive value : Type :=
| VNone
| VBool (b : bool)
| VInt (z : Z)
| VStr (s : string)
| VList (l : list value)
| VDict (items : list (string * value)).

(** ** Dictionaries

    A Python [dict] with string keys, as the list of its items in insertion
    order.  [dict_set] is [d[k] = v]: an existing key keeps its position, a
    new key goes last. *)
Section Dict.
Context {V : Type}.

Definition dict_keys (d : list (string * V)) : list string := map fst d.

Fixpoint dict_get (k : string) (d : list (string * V)) : option V :=
  match d with
  | [] => None
  | (k', v) :: d' => if String.eqb k k' then Some v else dict_get k d'
  end.

(** [k in d] *)
Definition dict_mem (k : string) (d : list (string * V)) : bool :=
  match dict_get k d with Some _ => true | None => false end.

(** [d[k] = v] *)
Fixpoint dict_set (k : string) (v : V) (d : list (string * V)) : list (string * V) :=
  match d with
  | [] => [(k, v)]
  | (k', v') :: d' =>
      if String.eqb k k' then (k, v) :: d' else (k', v') :: dict_set k v d'
  end.

(** The mapping left by [d.pop(k)]. *)
Definition dict_del (k : string) (d : list (string * V)) : list (string * V) :=
  filter (fun kv => k ≠ kv.1) d.

(** [d.pop(k)]: the value of [k] and the mapping without it; [None] stands
    for the [KeyError] of a missing key. *)
Definition dict_pop (k : string) (d : list (string * V)) : option (V * list (string * V)) :=
  match dict_get k d with
  | Some v => Some (v, dict_del k d)
  | None => None
  end.
End Dict.

(** ** Strings

    A character is a code point below 256.  [strip] and [lower] are
    [str.strip()] and [str.lower()] on such strings. *)

(** [str.isspace] on one character: tab to carriage return, the four
    separators 0x1c-0x1f, space, NEL and the no-break space. *)
Definition is_space (c : ascii) : bool :=
  let n := nat_of_ascii c in
  ((9 <=? n) && (n <=? 13) || (28 <=? n) && (n <=? 32) || (n =? 133) || (n =? 160))%nat.

Definition lower_char (c : ascii) : ascii :=
  let n := nat_of_ascii c in
  if ((65 <=? n) && (n <=? 90) || (192 <=? n) && (n <=? 214) || (216 <=? n) && (n <=? 222))%nat
  then ascii_of_nat (n + 32) else c.

Fixpoint lower (s : string) : string :=
  match s with
  | EmptyString => EmptyString
  | String c s' => String (lower_char c) (lower s')
  end.

Fixpoint lstrip (s : string) : string :=
  match s with
  | EmptyString => EmptyString
  | String c s' => if is_space c then lstrip s' else s
  end.

Fixpoint rstrip (s : string) : string :=
  match s with
  | EmptyString => EmptyString
  | String c s' =>
      match rstrip s' with
      | EmptyString => if is_space c then EmptyString else String c EmptyString
      | r => String c r
      end
  end.

Definition strip (s : string) : string := rstrip (lstrip s).

(** [s.startswith(p)] *)
Definition startswith (s p : string) : bool := String.prefix p s.

(** [sep.join(parts)] *)
Definition join (sep : string) (parts : list string) : string := String.concat sep parts.

(** ** Exceptions *)

(** The subclasses of [Exception] that reach a tool's [except] clause: the
    two the tool code raises itself or through indexing and iteration, and
    whatever the driver raises ([DriverError], with the driver's message). *)
Inductive exn : Type :=
| ValueError (msg : string)
| IndexError (msg : string)
| TypeError (msg : string)
| KeyError (msg : string)
| DriverError (msg : string).

(** [str(e)] *)
Definition str (e : exn) : string :=
  match e with
  | ValueError m | IndexError m | TypeError m | KeyError m | DriverError m => m
  end.

Global Instance exn_eq_dec : EqDecision exn.
Proof. solve_decision. Defined.

(** ** Driver calls *)

Inductive level : Type := INFO | ERROR.

(** The calls a tool makes on the driver.  [pg8000_connect] is
    [pg8000.connect(...)] on the fields of [make_url(dsn)]; the other calls
    are on the connection and the cursor of the running invocation, which
    opens one of each at most. *)
Inductive call : Type :=
| pg8000_connect
| conn_cursor
| cursor_execute (operation : string) (args : list value)
| cursor_fetchall
| cursor_fetchone
| cursor_description
| conn_close.

(** What each call returns when it does not raise.  A row is the list of its
    fields; [cursor.description] is [None] or one entry per column, of which
    the tools read the name (index 0) only; the second component stands for
    the rest of the entry (the type code). *)
Definition answer (c : call) : Type :=
  match c with
  | pg8000_connect => unit
  | conn_cursor => unit
  | cursor_execute _ _ => unit
  | cursor_fetchall => list (list value)
  | cursor_fetchone => option (list value)
  | cursor_description => option (list (string * Z))
  | conn_close => unit
  end.

(** ** Programs

    [prog S A]: a computation that makes driver calls, writes log lines,
    reads and updates a caller-owned object of type [S] (the [filters]
    dictionary of [filter_instances], passed by reference) and ends with a
    value of [A] or an exception. *)
Inductive prog (S A : Type) : Type :=
| Ret (a : A)
| Raise (e : exn)
| Log (lv : level) (msg : string) (k : prog S A)
| Get (k : S -> prog S A)
| Put (s : S) (k : prog S A)
| Call (c : call) (k : exn + answer c -> prog S A).

Arguments Ret {S A} a.
Arguments Raise {S A} e.
Arguments Log {S A} lv msg k.
Arguments Get {S A} k.
Arguments Put {S A} s k.
Arguments Call {S A} c k.

Fixpoint bind {S A B} (p : prog S A) (f : A -> prog S B) : prog S B :=
  match p with
  | Ret a => f a
  | Raise e => Raise e
  | Log lv msg k => Log lv msg (bind k f)
  | Get k => Get (fun s => bind (k s) f)
  | Put s k => Put s (bind k f)
  | Call c k => Call c (fun r => bind (k r) f)
  end.

Global Instance prog_ret {S} : MRet (prog S) := fun A a => Ret a.
Global Instance prog_bind {S} : MBind (prog S) := fun A B f p => bind p f.

(** [try: p  except Exception as e: h e] *)
Fixpoint try_except {S A} (p : prog S A) (h : exn -> prog S A) : prog S A :=
  match p with
  | Ret a => Ret a
  | Raise e => h e
  | Log lv msg k => Log lv msg (try_except k h)
  | Get k => Get (fun s => try_except (k s) h)
  | Put s k => Put s (try_except k h)
  | Call c k => Call c (fun r => try_except (k r) h)
  end.

(** A driver call whose exception, if any, propagates. *)
Definition do_call {S} (c : call) : prog S (answer c) :=
  Call c (fun r => match r with inl e => Raise e | inr a => Ret a end).

Definition log {S} (lv : level) (msg : string) : prog S unit := Log lv msg (Ret tt).
Definition get {S} : prog S S := Get Ret.
Definition put {S} (s : S) : prog S unit := Put s (Ret tt).

(** A pure step that may raise. *)
Definition lift {S A} (r : exn + A) : prog S A :=
  match r with inl e => Raise e | inr a => Ret a end.

(** ** Running a program against a driver *)

Inductive event : Type :=
| EvLog (lv : level) (msg : string)
| EvCall (c : call) (raised : option exn).

Record result (W S A : Type) : Type := mkResult {
  world : W;               (* the driver and database after the run *)
  store : S;               (* the caller-owned object after the run *)
  trace : list event;      (* log lines and driver calls, in order *)
  outcome : exn + A        (* the exception that escaped, or the value *)
}.

Arguments mkResult {W S A}.
Arguments world {W S A}.
Arguments store {W S A}.
Arguments trace {W S A}.
Arguments outcome {W S A}.

Definition emit {W S A} (ev : event) (r : result W S A) : result W S A :=
  mkResult (world r) (store r) (ev :: trace r) (outcome r).

(** The driver and the database behind it: every call moves the world and
    either raises or answers. *)
Definition handler (W : Type) : Type := forall c : call, W -> W * (exn + answer c).

Definition raised_of {A} (r : exn + A) : option exn :=
  match r with inl e => Some e | inr _ => None end.

Fixpoint run {W S A} (h : handler W) (p : prog S A) (w : W) (s : S) : result W S A :=
  match p with
  | Ret a => mkResult w s [] (inr a)
  | Raise e => mkResult w s [] (inl e)
  | Log lv msg k => emit (EvLog lv msg) (run h k w s)
  | Get k => run h (k s) w s
  | Put s' k => run h k w s'
  | Call c k =>
      let (w', r) := h c w in
      emit (EvCall c (raised_of r)) (run h (k r) w' s)
  end.

(** ** Code shared by the tools *)

(** [database_connection()] *)
Definition database_connection {S} : prog S unit :=
  log INFO "Connecting to PostgreSQL database...";;
  do_call pg8000_connect.

(** [row[i]] *)
Definition subscript (row : list value) (i : nat) : exn + value :=
  match row !! i with
  | Some v => inr v
  | None => inl (IndexError "list index out of range")
  end.

(** [cursor.fetchone()[i]]: the driver returns [None] when no row is left. *)
Definition subscript_row (row : option (list value)) (i : nat) : exn + value :=
  match row with
  | Some r => subscript r i
  | None => inl (TypeError "'NoneType' object is not subscriptable")
  end.

(** [[desc[0] for desc in cursor.description]] *)
Definition column_names_of (description : option (list (string * Z))) : exn + list string :=
  match description with
  | Some descs => inr (map fst descs)
  | None => inl (TypeError "'NoneType' object is not iterable")
  end.

(** [[f(x) for x in xs]], stopping at the first element on which [f] raises. *)
Fixpoint comprehension {A B} (f : A -> exn + B) (xs : list A) : exn + list B :=
  match xs with
  | [] => inr []
  | x :: xs' =>
      match f x with
      | inl e => inl e
      | inr y =>
          match comprehension f xs' with
          | inl e => inl e
          | inr ys => inr (y :: ys)
          end
      end
  end.

(** The inner loop of the normalizer (lines 90-91 and 220-221):
    [for i, col in enumerate(column_names): record[col] = row[i]],
    started at index [i] with the record built so far. *)
Fixpoint fill_record (column_names : list string) (i : nat) (row : list value)
    (record : list (string * value)) : exn + list (string * value) :=
  match column_names with
  | [] => inr record
  | col :: rest =>
      match subscript row i with
      | inl e => inl e
      | inr v => fill_record rest (Datatypes.S i) row (dict_set col v record)
      end
  end.

(** The normalizer (lines 87-92 and 217-222): one record per fetched row. *)
Definition format_results (column_names : list string) (results : list (list value))
    : exn + list value :=
  comprehension
    (fun row =>
       match fill_record column_names 0 row [] with
       | inl e => inl e
       | inr record => inr (VDict record)
       end)
    results.

(** [{"error": str(e)}] *)
Definition error_payload (msg : string) : value := VDict [("error", VStr msg)].

(** The [except Exception as e] clause every tool ends with. *)
Definition on_error {S} (what : string) (e : exn) : prog S value :=
  log ERROR (what +:+ str e);;
  mret (error_payload (str e)).

(** ** The statements

    The text of a triple-quoted statement starts with the line break after
    the opening quotes and ends with the indentation of the closing ones. *)
Definition nl : string := String (ascii_of_nat 10) EmptyString.

Definition list_tables_sql : string :=
  join nl
    [ "";
      "            SELECT table_name ";
      "            FROM information_schema.tables ";
      "            WHERE table_schema = 'public'";
      "            ORDER BY table_name";
      "        " ].

Definition table_schema_sql : string :=
  join nl
    [ "";
      "            SELECT column_name, data_type, is_nullable, column_default";
      "            FROM information_schema.columns";
      "            WHERE table_name = %s";
      "            ORDER BY ordinal_position";
      "        " ].

Definition database_size_sql : string :=
  "SELECT pg_size_pretty(pg_database_size(current_database()))".

Definition table_count_sql : string :=
  "SELECT count(*) FROM information_schema.tables WHERE table_schema = 'public'".

Definition version_sql : string := "SELECT version()".

Definition largest_tables_sql : string :=
  join nl
    [ "";
      "            SELECT ";
      "                table_name,";
      "                pg_size_pretty(pg_total_relation_size(quote_ident(table_name))) as size";
      "            FROM ";
      "                information_schema.tables";
      "            WHERE ";
      "                table_schema = 'public'";
      "            ORDER BY ";
      "                pg_total_relation_size(quote_ident(table_name)) DESC";
      "            LIMIT 5";
      "        " ].

(** ** The tools *)

(** The [try] block of [execute_query] (lines 68-94). *)
Definition execute_query_try {S} (query : string) : prog S value :=
  (if negb (startswith (lower (strip query)) "select")
   then Raise (ValueError "Only SELECT queries are allowed.")
   else Ret tt);;
  database_connection;;
  log INFO ("Executing custom SELECT query: " +:+ query);;
  do_call conn_cursor;;
  do_call (cursor_execute query []);;
  results ← do_call cursor_fetchall;
  description ← do_call cursor_description;
  column_names ← lift (column_names_of description);
  log INFO "Fetched query results successfully.";;
  do_call conn_close;;
  formatted_results ← lift (format_results column_names results);
  mret (VList formatted_results).

Definition execute_query {S} (query : string) : prog S value :=
  try_except (execute_query_try query) (on_error "Error executing query: ").

(** The [try] block of [list_tables] (lines 108-123). *)
Definition list_tables_try {S} : prog S value :=
  database_connection;;
  do_call conn_cursor;;
  do_call (cursor_execute list_tables_sql []);;
  rows ← do_call cursor_fetchall;
  tables ← lift (comprehension (fun row => subscript row 0) rows);
  log INFO "Fetched table names successfully.";;
  do_call conn_close;;
  mret (VList tables).

Definition list_tables {S} : prog S value :=
  try_except list_tables_try (on_error "Error listing tables: ").

(** The record [get_table_schema] builds from one row (lines 153-158). *)
Definition column_record (row : list value) : exn + value :=
  match subscript row 0 with
  | inl e => inl e
  | inr column_name =>
  match subscript row 1 with
  | inl e => inl e
  | inr data_type =>
  match subscript row 2 with
  | inl e => inl e
  | inr is_nullable =>
  match subscript row 3 with
  | inl e => inl e
  | inr column_default =>
      inr (VDict [ ("column_name", column_name);
                   ("data_type", data_type);
                   ("is_nullable", is_nullable);
                   ("default_value", column_default) ])
  end end end end.

(** The [try] block of [get_table_schema] (lines 140-163). *)
Definition get_table_schema_try {S} (table_name : string) : prog S value :=
  database_connection;;
  do_call conn_cursor;;
  do_call (cursor_execute table_schema_sql [VStr table_name]);;
  rows ← do_call cursor_fetchall;
  columns ← lift (comprehension column_record rows);
  log INFO ("Fetched schema for table " +:+ table_name +:+ " successfully.");;
  do_call conn_close;;
  mret (VList columns).

Definition get_table_schema {S} (table_name : string) : prog S value :=
  try_except (get_table_schema_try table_name)
    (on_error ("Error getting schema for table " +:+ table_name +:+ ": ")).

(** The [try] block of [filter_instances] (lines 185-224).  The [filters]
    argument is the caller's dictionary: the program reads it with [get] and
    [filters.pop] writes it back with [put]. *)
Definition filter_instances_try : prog (list (string * string)) value :=
  database_connection;;
  do_call conn_cursor;;
  filters ← get;
  let where_clauses := map (fun item => item.1 +:+ " = %s") filters in
  let params := map (fun item => VStr item.2) filters in
  let where_clause := join " AND " where_clauses in
  filters ← get;
  (if negb (dict_mem "table_name" filters)
   then Raise (ValueError "'table_name' is required in filters parameter")
   else Ret tt);;
  popped ← lift (match dict_pop "table_name" filters with
                 | Some r => inr r
                 | None => inl (KeyError "'table_name'")
                 end);
  put popped.2;;
  let table_name := popped.1 in
  let query := "SELECT * FROM " +:+ table_name in
  let query := match where_clauses with
               | [] => query
               | _ :: _ => query +:+ " WHERE " +:+ where_clause
               end in
  do_call (cursor_execute query params);;
  results ← do_call cursor_fetchall;
  description ← do_call cursor_description;
  column_names ← lift (column_names_of description);
  log INFO "Fetched filtered instances successfully.";;
  do_call conn_close;;
  instances ← lift (format_results column_names results);
  mret (VList instances).

Definition filter_instances : prog (list (string * string)) value :=
  try_except filter_instances_try (on_error "Error filtering instances: ").

(** One entry of [largest_tables] (line 273). *)
Definition largest_record (row : list value) : exn + value :=
  match subscript row 0 with
  | inl e => inl e
  | inr table =>
  match subscript row 1 with
  | inl e => inl e
  | inr size => inr (VDict [("table", table); ("size", size)])
  end end.

(** The [try] block of [get_database_stats] (lines 244-283). *)
Definition get_database_stats_try {S} : prog S value :=
  database_connection;;
  do_call conn_cursor;;
  do_call (cursor_execute database_size_sql []);;
  row ← do_call cursor_fetchone;
  db_size ← lift (subscript_row row 0);
  do_call (cursor_execute table_count_sql []);;
  row ← do_call cursor_fetchone;
  table_count ← lift (subscript_row row 0);
  do_call (cursor_execute version_sql []);;
  row ← do_call cursor_fetchone;
  version ← lift (subscript_row row 0);
  do_call (cursor_execute largest_tables_sql []);;
  rows ← do_call cursor_fetchall;
  largest_tables ← lift (comprehension largest_record rows);
  log INFO "Fetched database statistics successfully.";;
  do_call conn_close;;
  mret (VDict [ ("database_size", db_size);
                ("table_count", table_count);
                ("postgres_version", version);
                ("largest_tables", VList largest_tables) ]).

Definition get_database_stats {S} : prog S value :=
  try_except get_database_stats_try (on_error "Error getting database stats: ").

(** ** Drivers to run the tools against *)

(** What the tools see of a run. *)
Definition calls_of (tr : list event) : list call :=
  omap (fun ev => match ev with EvCall c _ => Some c | EvLog _ _ => None end) tr.

(** The statements handed to [cursor.execute], with their bound parameters. *)
Definition executed (tr : list event) : list (string * list value) :=
  omap (fun ev => match ev with
                  | EvCall (cursor_execute operation args) _ => Some (operation, args)
                  | _ => None
                  end) tr.

Definition executed_sql (tr : list event) : list string := map fst (executed tr).

(** [pg8000.connect] returned a connection. *)
Definition opened (tr : list event) : bool :=
  existsb (fun ev => match ev with EvCall pg8000_connect None => true | _ => false end) tr.

(** [conn.close()] was called. *)
Definition released (tr : list event) : bool :=
  existsb (fun ev => match ev with EvCall conn_close _ => true | _ => false end) tr.

(** A server that accepts every statement and has no rows to return. *)
Definition accepting : handler unit :=
  fun c w =>
    (w, match c return exn + answer c with
        | pg8000_connect => inr tt
        | conn_cursor => inr tt
        | cursor_execute _ _ => inr tt
        | cursor_fetchall => inr []
        | cursor_fetchone => inr None
        | cursor_description => inr (Some [])
        | conn_close => inr tt
        end).

(** A server that rejects every statement, as the executor does on an
    unknown table or column. *)
Definition rejecting (msg : string) : handler unit :=
  fun c w =>
    (w, match c return exn + answer c with
        | cursor_execute _ _ => inl (DriverError msg)
        | c' => snd (accepting c' tt)
        end).

(** No server: [pg8000.connect] raises. *)
Definition unreachable (msg : string) : handler unit :=
  fun c w =>
    (w, match c return exn + answer c with
        | pg8000_connect => inl (DriverError msg)
        | c' => snd (accepting c' tt)
        end).

(** ** A reference executor for the server's own statements

    The five fixed statements of [server.py] read the catalogue of the
    database.  [database] holds what they read, and [statement_result] is
    the meaning of each statement on it: the [WHERE], [ORDER BY] and
    [LIMIT] clauses of the statement text, clause by clause. *)

(** One row of [information_schema.columns]. *)
Record column : Type := mkColumn {
  col_table_schema : string;
  col_table_name : string;
  col_column_name : string;
  col_ordinal_position : Z;
  col_data_type : string;
  col_is_nullable : string;
  col_column_default : option string
}.

(** One row of [information_schema.tables]. *)
Record table : Type := mkTable {
  tab_table_schema : string;
  tab_table_name : string
}.

Record database : Type := mkDatabase {
  db_columns : list column;                  (* information_schema.columns *)
  db_tables : list table;                    (* information_schema.tables *)
  db_total_relation_size : string -> Z;      (* pg_total_relation_size(quote_ident(name)) *)
  db_database_size : Z;                      (* pg_database_size(current_database()) *)
  db_size_pretty : Z -> string;              (* pg_size_pretty *)
  db_version : string                        (* version() *)
}.

Definition by_ordinal_position (a b : column) : Prop :=
  col_ordinal_position a <= col_ordinal_position b.

Definition by_name (a b : table) : Prop :=
  String.leb (tab_table_name a) (tab_table_name b) = true.

Definition by_size_desc (db : database) (a b : table) : Prop :=
  db_total_relation_size db (tab_table_name b) <= db_total_relation_size db (tab_table_name a).

Global Instance by_ordinal_position_dec a b : Decision (by_ordinal_position a b).
Proof. unfold by_ordinal_position. apply _. Defined.

Global Instance by_name_dec a b : Decision (by_name a b).
Proof. unfold by_name. apply _. Defined.

Global Instance by_size_desc_dec db a b : Decision (by_size_desc db a b).
Proof. unfold by_size_desc. apply _. Defined.

(** [WHERE table_schema = 'public'] on [information_schema.tables]. *)
Definition public_tables (db : database) : list table :=
  filter (fun t => tab_table_schema t = "public") (db_tables db).

(** [WHERE table_name = %s] on [information_schema.columns]. *)
Definition columns_named (db : database) (name : string) : list column :=
  filter (fun c => col_table_name c = name) (db_columns db).

(** The columns of table [name] of schema [public]. *)
Definition public_columns (db : database) (name : string) : list column :=
  filter (fun c => col_table_schema c = "public" /\ col_table_name c = name) (db_columns db).

(** The rows of the table-schema statement (lines 144-149). *)
Definition table_schema_rows (db : database) (name : string) : list column :=
  merge_sort by_ordinal_position (columns_named db name).

(** The rows of the largest-tables statement (lines 260-271). *)
Definition largest_tables_rows (db : database) : list table :=
  take 5 (merge_sort (by_size_desc db) (public_tables db)).

Definition null_or_text (o : option string) : value :=
  match o with Some s => VStr s | None => VNone end.

Definition column_row (c : column) : list value :=
  [ VStr (col_column_name c); VStr (col_data_type c); VStr (col_is_nullable c);
    null_or_text (col_column_default c) ].

Definition size_of (db : database) (t : table) : string :=
  db_size_pretty db (db_total_relation_size db (tab_table_name t)).

Definition largest_row (db : database) (t : table) : list value :=
  [ VStr (tab_table_name t); VStr (size_of db t) ].

(** Type codes of the catalogue columns, as [cursor.description] reports
    them: text, and [bigint] for the table count. *)
Definition text_oid : Z := 25.
Definition int8_oid : Z := 20.

(** The description and the rows of a statement; statements other than the
    server's own are rejected. *)
Definition statement_result (db : database) (operation : string) (args : list value)
    : exn + (list (string * Z) * list (list value)) :=
  if String.eqb operation list_tables_sql then
    inr ([("table_name", text_oid)],
         map (fun t => [VStr (tab_table_name t)]) (merge_sort by_name (public_tables db)))
  else if String.eqb operation table_schema_sql then
    match args with
    | [VStr name] =>
        inr ([("column_name", text_oid); ("data_type", text_oid);
              ("is_nullable", text_oid); ("column_default", text_oid)],
             map column_row (table_schema_rows db name))
    | _ => inl (DriverError "bind message supplies the wrong parameters")
    end
  else if String.eqb operation database_size_sql then
    inr ([("pg_size_pretty", text_oid)], [[VStr (db_size_pretty db (db_database_size db))]])
  else if String.eqb operation table_count_sql then
    inr ([("count", int8_oid)], [[VInt (Z.of_nat (length (public_tables db)))]])
  else if String.eqb operation version_sql then
    inr ([("version", text_oid)], [[VStr (db_version db)]])
  else if String.eqb operation largest_tables_sql then
    inr ([("table_name", text_oid); ("size", text_oid)],
         map (largest_row db) (largest_tables_rows db))
  else inl (DriverError "statement not supported").

(** A session with the executor: the database, the rows of the last
    statement still to fetch, and its description. *)
Record session : Type := mkSession {
  ses_db : database;
  ses_rows : list (list value);
  ses_description : option (list (string * Z))
}.

Definition fresh (db : database) : session := mkSession db [] None.

Definition postgres : handler session :=
  fun c w =>
    match c return session * (exn + answer c) with
    | pg8000_connect => (w, inr tt)
    | conn_cursor => (w, inr tt)
    | cursor_execute operation args =>
        match statement_result (ses_db w) operation args with
        | inl e => (w, inl e)
        | inr (description, rows) => (mkSession (ses_db w) rows (Some description), inr tt)
        end
    | cursor_fetchall => (mkSession (ses_db w) [] (ses_description w), inr (ses_rows w))
    | cursor_fetchone =>
        (mkSession (ses_db w) (tail (ses_rows w)) (ses_description w), inr (head (ses_rows w)))
    | cursor_description => (w, inr (ses_description w))
    | conn_close => (w, inr tt)
    end.

(** ** The tool surface *)

(** A tool invocation, as the dispatcher hands it over; the [filters]
    dictionary of [filter_instances] is the caller-owned object of the run. *)
Inductive request : Type :=
| ExecuteQuery (query : string)
| ListTables
| GetTableSchema (table_name : string)
| FilterInstances
| GetDatabaseStats.

(** The [try] block of each tool, and the tool itself. *)
Definition try_block (r : request) : prog (list (string * string)) value :=
  match r with
  | ExecuteQuery query => execute_query_try query
  | ListTables => list_tables_try
  | GetTableSchema table_name => get_table_schema_try table_name
  | FilterInstances => filter_instances_try
  | GetDatabaseStats => get_database_stats_try
  end.

Definition tool (r : request) : prog (list (string * string)) value :=
  match r with
  | ExecuteQuery query => execute_query query
  | ListTables => list_tables
  | GetTableSchema table_name => get_table_schema table_name
  | FilterInstances => filter_instances
  | GetDatabaseStats => get_database_stats
  end.

(** A program in which the exception of a failed driver call is never
    swallowed: every call either continues on its answer or raises what the
    driver raised. *)
Inductive propagating {S A} : prog S A -> Prop :=
| propagating_Ret a : propagating (Ret a)
| propagating_Raise e : propagating (Raise e)
| propagating_Log lv msg k : propagating k -> propagating (Log lv msg k)
| propagating_Get k : (forall s, propagating (k s)) -> propagating (Get k)
| propagating_Put s k : propagating k -> propagating (Put s k)
| propagating_Call c k :
    (forall e, k (inl e) = Raise e) ->
    (forall a, propagating (k (inr a))) ->
    propagating (Call c k).

(** The keys of the record that [fill_record] leaves: each column name at
    the place of its first occurrence. *)
Definition add_key (seen : list string) (k : string) : list string :=
  if bool_decide (k ∈ seen) then seen else seen ++ [k].

Definition first_seen (column_names : list string) : list string :=
  fold_left add_key column_names [].

(** ** Vocabulary of the properties *)

(** The text each tool puts before the message in its error log line. *)
Definition error_prefix (r : request) : string :=
  match r with
  | ExecuteQuery _ => "Error executing query: "
  | ListTables => "Error listing tables: "
  | GetTableSchema table_name => "Error getting schema for table " +:+ table_name +:+ ": "
  | FilterInstances => "Error filtering instances: "
  | GetDatabaseStats => "Error getting database stats: "
  end.

(** The check of line 69. *)
Definition is_select (query : string) : bool :=
  startswith (lower (strip query)) "select".

(** The statement text of lines 193-206 for a table name and the keys of
    the mapping the loop of line 192 went through. *)
Definition select_statement (table_name : string) (keys : list string) : string :=
  let query := "SELECT * FROM " +:+ table_name in
  match map (fun k => k +:+ " = %s") keys with
  | [] => query
  | where_clauses => query +:+ " WHERE " +:+ join " AND " where_clauses
  end.

(** The record [get_table_schema] makes of a catalogue row. *)
Definition column_entry (c : column) : value :=
  VDict [ ("column_name", VStr (col_column_name c));
          ("data_type", VStr (col_data_type c));
          ("is_nullable", VStr (col_is_nullable c));
          ("default_value", null_or_text (col_column_default c)) ].

(** The record [get_database_stats] makes of a row of the largest tables. *)
Definition largest_entry (db : database) (t : table) : value :=
  VDict [ ("table", VStr (tab_table_name t)); ("size", VStr (size_of db t)) ].

(** A database in which the name [users] is taken in two schemas. *)
Definition two_schemas : database :=
  mkDatabase
    [ mkColumn "public" "users" "id" 1 "integer" "NO" None;
      mkColumn "public" "users" "email" 2 "text" "YES" None;
      mkColumn "audit" "users" "changed_at" 1 "timestamp" "NO" (Some "now()") ]
    [ mkTable "public" "users"; mkTable "audit" "users" ]
    (fun _ => 8192)
    7500000
    (fun _ => "8192 bytes")
    "PostgreSQL 16.2".

(** The events of a trace that follow its first failed driver call. *)
Fixpoint after_failure (tr : list event) : list event :=
  match tr with
  | [] => []
  | EvCall _ (Some _) :: rest => rest
  | _ :: rest => after_failure rest
  end.

Definition is_connect (c : call) : bool :=
  match c with pg8000_connect => true | _ => false end.

Definition is_close (c : call) : bool :=
  match c with conn_close => true | _ => false end.

(** The calls of an invocation start with [pg8000.connect], which is not
    called again. *)
Definition connects_once_first (cs : list call) : bool :=
  match cs with
  | [] => true
  | c :: rest => is_connect c && forallb (fun c' => negb (is_connect c')) rest
  end.

(** No call follows [conn.close()]. *)
Fixpoint close_is_last (cs : list call) : bool :=
  match cs with
  | [] => true
  | c :: rest =>
      if is_close c then match rest with [] => true | _ :: _ => false end
      else close_is_last rest
  end.

(** The statements a tool is written to execute, in order, with their
    parameters. *)
Definition planned (r : request) (filters : list (string * string))
    : list (string * list value) :=
  match r with
  | ExecuteQuery query => if is_select query then [(query, [])] else []
  | ListTables => [(list_tables_sql, [])]
  | GetTableSchema table_name => [(table_schema_sql, [VStr table_name])]
  | FilterInstances =>
      match dict_get "table_name" filters with
      | Some table_name =>
          [(select_statement table_name (dict_keys filters),
            map (fun item => VStr item.2) filters)]
      | None => []
      end
  | GetDatabaseStats =>
      [(database_size_sql, []); (table_count_sql, []); (version_sql, []);
       (largest_tables_sql, [])]
  end.

(** Every character of [s] is white space. *)
Fixpoint all_space (s : string) : bool :=
  match s with
  | EmptyString => true
  | String c s' => is_space c && all_space s'
  end.

(** A server that accepts every statement and answers each with the same
    description and rows. *)
Definition serving (description : list (string * Z)) (rows : list (list value)) : handler unit :=
  fun c w =>
    (w, match c return exn + answer c with
        | cursor_fetchall => inr rows
        | cursor_fetchone => inr (head rows)
        | cursor_description => inr (Some description)
        | c' => snd (accepting c' tt)
        end).

(** [conn.close()] itself raised. *)
Definition close_raised (tr : list event) : bool :=
  existsb (fun ev => match ev with EvCall conn_close (Some _) => true | _ => false end) tr.

(** The tools that normalize their rows after closing the connection. *)
Definition formats_after_close (r : request) : bool :=
  match r with
  | ExecuteQuery _ | FilterInstances => true
  | _ => false
  end.

(** A server that hands out connections but no cursor: [conn.cursor()]
    raises. *)
Definition cursorless (msg : string) : handler unit :=
  fun c w =>
    (w, match c return exn + answer c with
        | conn_cursor => inl (DriverError msg)
        | c' => snd (accepting c' tt)
        end).

(** No driver call of the trace raised. *)
Definition no_call_raised (tr : list event) : bool :=
  forallb (fun ev => match ev with EvCall _ (Some _) => false | _ => true end) tr.

(** * Properties *)

(** ** Running programs *)

Section Run.
Context {W S : Type} (h : handler W).

Lemma run_bind {A B} (p : prog S A) (f : A -> prog S B) w s :
  run h (bind p f) w s =
  let r := run h p w s in
  match outcome r with
  | inl e => mkResult (world r) (store r) (trace r) (inl e)
  | inr a =>
      let r' := run h (f a) (world r) (store r) in
      mkResult (world r') (store r') (trace r ++ trace r') (outcome r')
  end.
Proof.
  revert w s. induction p as [a|e|lv msg k IH|k IH|s' k IH|c k IH]; intros w s; simpl.
  - by destruct (run h (f a) w s).
  - done.
  - rewrite IH. simpl. by destruct (outcome (run h k w s)).
  - apply IH.
  - apply IH.
  - destruct (h c w) as [w' r]. rewrite IH. simpl.
    by destruct (outcome (run h (k r) w' s)).
Qed.

(** A [try] block under the tools' [except] clause: the same calls, one
    more log line when the block raised, and never an exception. *)
Lemma run_try_except (what : string) (p : prog S value) w s :
  run h (try_except p (on_error what)) w s =
  let r := run h p w s in
  match outcome r with
  | inl e =>
      mkResult (world r) (store r) (trace r ++ [EvLog ERROR (what +:+ str e)])
        (inr (error_payload (str e)))
  | inr v => r
  end.
Proof.
  revert w s. induction p as [a|e|lv msg k IH|k IH|s' k IH|c k IH]; intros w s; simpl.
  - done.
  - done.
  - rewrite IH. simpl. by destruct (run h k w s) as [? ? ? [?|?]].
  - apply IH.
  - apply IH.
  - destruct (h c w) as [w' r]. rewrite IH. simpl.
    by destruct (run h (k r) w' s) as [? ? ? [?|?]].
Qed.

Lemma propagating_raised {A} (p : prog S A) w s c e :
  propagating p ->
  In (EvCall c (Some e)) (trace (run h p w s)) ->
  outcome (run h p w s) = inl e.
Proof.
  intros Hp. revert w s.
  induction Hp as [a|e'|lv msg k _ IH|k _ IH|s' k _ IH|c' k Hraise _ IH]; intros w s; simpl.
  - done.
  - done.
  - intros [Hev|Hin]; [discriminate | by apply IH].
  - apply IH.
  - apply IH.
  - destruct (h c' w) as [w' [e'|a]]; simpl.
    + rewrite Hraise. simpl. intros [Hev|[]]. by inversion Hev.
    + intros [Hev|Hin]; [discriminate | by apply IH].
Qed.
End Run.

Lemma propagating_bind {S A B} (p : prog S A) (f : A -> prog S B) :
  propagating p -> (forall a, propagating (f a)) -> propagating (bind p f).
Proof.
  intros Hp Hf. induction Hp; simpl; try (constructor; auto; fail); auto.
  constructor; [|auto]. intros e. by rewrite H.
Qed.

Lemma propagating_do_call {S} (c : call) : propagating (@do_call S c).
Proof. constructor; [done | constructor]. Qed.

Lemma propagating_lift {S A} (r : exn + A) : propagating (@lift S A r).
Proof. destruct r; constructor. Qed.

Lemma propagating_log {S} lv msg : propagating (@log S lv msg).
Proof. repeat constructor. Qed.

Lemma propagating_guard {S} (b : bool) e : propagating (if b then @Raise S unit e else Ret tt).
Proof. destruct b; constructor. Qed.

Create HintDb propagating.
#[export] Hint Resolve propagating_do_call propagating_lift propagating_log propagating_guard
  : propagating.
#[export] Hint Constructors propagating : propagating.

Ltac propagating :=
  repeat first
    [ apply propagating_bind; [ | intros ? ]
    | lazymatch goal with |- propagating (do_call ?c) => exact (propagating_do_call c) end
    | progress auto with propagating ].

Lemma propagating_try_block (r : request) : propagating (try_block r).
Proof.
  destruct r; unfold try_block.
  - unfold execute_query_try, database_connection, mbind, prog_bind, mret, prog_ret.
    propagating.
  - unfold list_tables_try, database_connection, mbind, prog_bind, mret, prog_ret.
    propagating.
  - unfold get_table_schema_try, database_connection, mbind, prog_bind, mret, prog_ret.
    propagating.
  - unfold filter_instances_try, database_connection, mbind, prog_bind, mret, prog_ret, get, put.
    propagating.
  - unfold get_database_stats_try, database_connection, mbind, prog_bind, mret, prog_ret.
    propagating.
Qed.

(** ** The tool boundary *)

Lemma tool_try_except (r : request) :
  tool r = try_except (try_block r) (on_error (error_prefix r)).
Proof. by destruct r. Qed.

(** C4. Whatever the driver does, a tool returns a value and lets no
    exception out; when its [try] block raises [e] (a failed connection, the
    [ValueError] of a validation, a rejected statement, an [IndexError] of
    the normalizer), and in particular when any driver call of the
    invocation raised [e], the value is [{"error": str(e)}]. *)
Theorem tool_never_raises {W} (h : handler W) (r : request) (w : W)
    (filters : list (string * string)) :
  let block := run h (try_block r) w filters in
  let res := run h (tool r) w filters in
  (exists v, outcome res = inr v) /\
  (forall e, outcome block = inl e -> outcome res = inr (error_payload (str e))) /\
  (forall c e, In (EvCall c (Some e)) (trace res) ->
               outcome res = inr (error_payload (str e))).
Proof.
  intros block res. subst res. rewrite tool_try_except, run_try_except.
  fold block. simpl. split; [|split].
  - destruct (outcome block) as [e|v] eqn:Hb; [by eexists|].
    exists v. by rewrite Hb.
  - intros e He. by rewrite He.
  - intros c e Hin.
    assert (Hraised : outcome block = inl e).
    { apply propagating_raised with (c := c); [apply propagating_try_block|].
      destruct (outcome block); [|done]. simpl in Hin.
      apply in_app_or in Hin as [Hin|[Hin|[]]]; [done | discriminate]. }
    by rewrite Hraised.
Qed.

(** ** The read-only gate of [execute_query] *)

Example is_select_mixed_case : is_select "   SeLeCt * FROM t  " = true.
Proof. reflexivity. Qed.

Example is_select_delete : is_select "DELETE FROM t" = false.
Proof. reflexivity. Qed.

Example is_select_prefix_only : is_select "selection; DROP TABLE t" = true.
Proof. reflexivity. Qed.

(** C2. A query that, stripped and lowered, does not start with [select]
    is answered with [{"error": "Only SELECT queries are allowed."}] and no
    driver call is made at all: no connection, no statement.  A query that
    does start with [select] passes the check: the tool goes on to open a
    connection, and once the driver has handed out the connection and the
    cursor, the statement sent to the executor is the query text itself,
    with no parameters. *)
Theorem execute_query_select_gate {W S} (h : handler W) (w : W) (s : S) (query : string) :
  let res := run h (execute_query query) w s in
  (is_select query = false ->
     outcome res = inr (error_payload "Only SELECT queries are allowed.") /\
     calls_of (trace res) = []) /\
  (is_select query = true ->
     head (calls_of (trace res)) = Some pg8000_connect /\
     forall w1 w2,
       h pg8000_connect w = (w1, inr tt) ->
       h conn_cursor w1 = (w2, inr tt) ->
       executed (trace res) = [(query, [])]).
Proof.
  unfold is_select, execute_query, execute_query_try. split; intros Hgate; rewrite Hgate.
  - by cbn.
  - cbn. split.
    + by destruct (h pg8000_connect w) as [w1 [e|[]]].
    + intros w1 w2 Hconn Hcur. rewrite Hconn. cbn. rewrite Hcur. cbn.
      destruct (h (cursor_execute query []) w2) as [w3 [e|[]]]; cbn; [done|].
      destruct (h cursor_fetchall w3) as [w4 [e|results]]; cbn; [done|].
      destruct (h cursor_description w4) as [w5 [e|[descs|]]]; cbn; [done| |done].
      destruct (h conn_close w5) as [w6 [e|[]]]; cbn; [done|].
      by destruct (format_results (map fst descs) results).
Qed.

Lemma execute_query_select_gate_witness :
  (outcome (run accepting (execute_query "DROP TABLE users") tt tt)
     = inr (error_payload "Only SELECT queries are allowed.") /\
   calls_of (trace (run accepting (execute_query "DROP TABLE users") tt tt)) = []) /\
  executed (trace (run accepting (execute_query "  Select 1") tt tt)) = [("  Select 1", [])].
Proof.
  split.
  - apply (execute_query_select_gate accepting tt tt "DROP TABLE users"). reflexivity.
  - destruct (execute_query_select_gate accepting tt tt "  Select 1") as [_ Hpass].
    destruct (Hpass eq_refl) as [_ Hsent]. apply (Hsent tt tt); reflexivity.
Defined.

(** ** [filter_instances] *)

(** What a run of [filter_instances] sends to the executor and leaves in
    the caller's dictionary, by the answers of the driver to the first two
    calls. *)
Lemma filter_instances_run {W} (h : handler W) (w : W) (filters : list (string * string)) :
  let res := run h filter_instances w filters in
  match h pg8000_connect w with
  | (w1, inr _) =>
      match h conn_cursor w1 with
      | (w2, inr _) =>
          match dict_get "table_name" filters with
          | Some table_name =>
              executed (trace res) =
                [(select_statement table_name (dict_keys filters),
                  map (fun item => VStr item.2) filters)] /\
              store res = dict_del "table_name" filters
          | None =>
              executed (trace res) = [] /\ store res = filters /\
              outcome res =
                inr (error_payload "'table_name' is required in filters parameter")
          end
      | (w2, inl e) =>
          executed (trace res) = [] /\ store res = filters /\
          outcome res = inr (error_payload (str e))
      end
  | (w1, inl e) =>
      executed (trace res) = [] /\ store res = filters /\
      outcome res = inr (error_payload (str e))
  end.
Proof.
  unfold filter_instances, filter_instances_try. cbn.
  destruct (h pg8000_connect w) as [w1 [e|[]]]; cbn; [done|].
  destruct (h conn_cursor w1) as [w2 [e|[]]]; cbn; [done|].
  unfold dict_mem, dict_pop.
  destruct (dict_get "table_name" filters) as [table_name|] eqn:Hget; cbn; [|done].
  assert (Hsql :
    match map (fun item : string * string => item.1 +:+ " = %s") filters with
    | [] => "SELECT * FROM " +:+ table_name
    | _ :: _ =>
        ("SELECT * FROM " +:+ table_name) +:+ " WHERE " +:+
        join " AND " (map (fun item : string * string => item.1 +:+ " = %s") filters)
    end = select_statement table_name (dict_keys filters)).
  { unfold select_statement, dict_keys. rewrite map_map. by destruct filters. }
  rewrite Hsql. clear Hsql.
  destruct (h (cursor_execute _ _) w2) as [w3 [e|[]]]; cbn; [done|].
  destruct (h cursor_fetchall w3) as [w4 [e|results]]; cbn; [done|].
  destruct (h cursor_description w4) as [w5 [e|[descs|]]]; cbn; [done| |done].
  destruct (h conn_close w5) as [w6 [e|[]]]; cbn; [done|].
  by destruct (format_results (map fst descs) results).
Qed.

Lemma append_assoc (a b c : string) : (a +:+ b) +:+ c = a +:+ (b +:+ c).
Proof. induction a as [|x a IH]; [done|]. exact (f_equal (String x) IH). Qed.

Lemma dict_get_del {V} (k k' : string) (d : list (string * V)) :
  dict_get k' (dict_del k d) = if String.eqb k' k then None else dict_get k' d.
Proof.
  unfold dict_del. induction d as [|[k0 v] d IH]; simpl.
  - by destruct (String.eqb k' k).
  - rewrite filter_cons. simpl. destruct (decide (k ≠ k0)) as [Hne|Heq]; simpl.
    + rewrite IH. destruct (String.eqb_spec k' k) as [->|Hk]; [|done].
      destruct (String.eqb_spec k k0); [done|done].
    + apply dec_stable in Heq. subst k0. rewrite IH.
      by destruct (String.eqb_spec k' k).
Qed.

Lemma dict_get_keys {V} (k : string) (d : list (string * V)) (v : V) :
  dict_get k d = Some v -> In k (dict_keys d) /\ In v (map snd d).
Proof.
  induction d as [|[k0 v0] d IH]; simpl; [done|].
  destruct (String.eqb_spec k k0) as [->|Hne].
  - intros [= ->]. auto.
  - intros Hget. destruct (IH Hget). auto.
Qed.

(** C7 (as stated, refuted). The tool asks for a connection (lines
    185-186) before it looks at the mapping (line 199): with no server, a
    mapping without [table_name] is answered with the message of the failed
    connection, not with the message about [table_name]. *)
Lemma filter_instances_connection_error_first :
  let filters := [("region", "us-west-1")] in
  let res := run (unreachable "connection refused") filter_instances tt filters in
  dict_mem "table_name" filters = false /\
  outcome res = inr (error_payload "connection refused") /\
  outcome res <> inr (error_payload "'table_name' is required in filters parameter").
Proof. cbv zeta. split; [reflexivity|]. split; [reflexivity | discriminate]. Qed.

(** C7 (amended). For a mapping without the key [table_name] no statement
    is ever executed and the answer is an error payload; once the driver has
    handed out the connection and the cursor (which the tool asks for before
    it looks at the mapping), the payload is exactly
    [{"error": "'table_name' is required in filters parameter"}]. *)
Theorem filter_instances_requires_table_name {W} (h : handler W) (w : W)
    (filters : list (string * string)) :
  dict_mem "table_name" filters = false ->
  let res := run h filter_instances w filters in
  executed (trace res) = [] /\
  (exists msg, outcome res = inr (error_payload msg)) /\
  (forall w1 w2,
     h pg8000_connect w = (w1, inr tt) ->
     h conn_cursor w1 = (w2, inr tt) ->
     outcome res = inr (error_payload "'table_name' is required in filters parameter")).
Proof.
  intros Hmem res. pose proof (filter_instances_run h w filters) as Hrun.
  fold res in Hrun. cbv zeta in Hrun. unfold dict_mem in Hmem.
  destruct (dict_get "table_name" filters) eqn:Hget; [discriminate|].
  destruct (h pg8000_connect w) as [w1 [e|[]]] eqn:Hconn.
  { destruct Hrun as (-> & _ & ->). split; [done|]. split; [by eexists|]. by intros. }
  destruct (h conn_cursor w1) as [w2 [e|[]]] eqn:Hcur.
  { destruct Hrun as (-> & _ & ->). split; [done|]. split; [by eexists|].
    intros w1' w2' [= <-]. by rewrite Hcur. }
  destruct Hrun as (-> & _ & ->). split; [done|]. split; [by eexists|]. by intros.
Qed.

Lemma filter_instances_requires_table_name_witness :
  outcome (run accepting filter_instances tt [("region", "us-west-1")])
  = inr (error_payload "'table_name' is required in filters parameter").
Proof.
  destruct (filter_instances_requires_table_name accepting tt [("region", "us-west-1")] eq_refl)
    as (_ & _ & Hmsg).
  apply (Hmsg tt tt); reflexivity.
Defined.

(** The tool connects before it looks at the mapping: with no server the
    payload carries the message of the failed connection. *)
Example filter_instances_no_server :
  outcome (run (unreachable "connection refused") filter_instances tt [("region", "us-west-1")])
  = inr (error_payload "connection refused").
Proof. reflexivity. Qed.

(** C10 (as stated, refuted). The pop of line 202 comes after the
    connection and the cursor of lines 185-186: when either of these calls
    raises, a mapping that contains [table_name] is left as it was, the key
    still in it. *)
Lemma filter_instances_no_pop_without_cursor :
  let filters := [("table_name", "ec2_instances"); ("region", "us-west-1")] in
  dict_mem "table_name" filters = true /\
  store (run (unreachable "connection refused") filter_instances tt filters) = filters /\
  store (run (cursorless "connection is closed") filter_instances tt filters) = filters /\
  dict_mem "table_name"
    (store (run (unreachable "connection refused") filter_instances tt filters)) = true /\
  store (run (unreachable "connection refused") filter_instances tt filters)
    <> dict_del "table_name" filters.
Proof. cbv zeta. split; [|split; [|split; [|split]]]; try reflexivity. discriminate. Qed.

(** C10 (amended). When the mapping has the key [table_name] and the driver has
    handed out the connection and the cursor, the caller's dictionary is
    left without that key (and otherwise as it was), while the statement
    that was executed had been built from the whole mapping: one clause and
    one parameter per key, [table_name] included. *)
Theorem filter_instances_pops_table_name {W} (h : handler W) (w w1 w2 : W)
    (filters : list (string * string)) (table_name : string) :
  dict_get "table_name" filters = Some table_name ->
  h pg8000_connect w = (w1, inr tt) ->
  h conn_cursor w1 = (w2, inr tt) ->
  let res := run h filter_instances w filters in
  store res = dict_del "table_name" filters /\
  dict_mem "table_name" (store res) = false /\
  (forall k, k <> "table_name" -> dict_get k (store res) = dict_get k filters) /\
  executed (trace res) =
    [("SELECT * FROM " +:+ table_name +:+ " WHERE " +:+
        join " AND " (map (fun k => k +:+ " = %s") (dict_keys filters)),
      map (fun item => VStr item.2) filters)] /\
  In "table_name" (dict_keys filters) /\
  In (VStr table_name) (map (fun item => VStr item.2) filters).
Proof.
  intros Hget Hconn Hcur res. pose proof (filter_instances_run h w filters) as Hrun.
  fold res in Hrun. cbv zeta in Hrun. rewrite Hconn, Hcur, Hget in Hrun.
  destruct Hrun as [Hexec Hstore]. destruct (dict_get_keys _ _ _ Hget) as [Hk Hv].
  rewrite Hstore. split; [done|]. split; [|split; [|split; [|split]]].
  - unfold dict_mem. by rewrite dict_get_del.
  - intros k Hk'. rewrite dict_get_del. by destruct (String.eqb_spec k "table_name").
  - rewrite Hexec. f_equal. f_equal. unfold select_statement.
    destruct filters as [|[k0 v0] filters]; [done|]. cbv zeta.
    change (dict_keys ((k0, v0) :: filters)) with (k0 :: dict_keys filters).
    rewrite map_cons. apply append_assoc.
  - done.
  - rewrite <- (map_map snd VStr). by apply in_map.
Qed.

Lemma filter_instances_pops_table_name_witness :
  store (run accepting filter_instances tt
           [("table_name", "ec2_instances"); ("region", "us-west-1")])
  = [("region", "us-west-1")].
Proof.
  apply (filter_instances_pops_table_name accepting tt tt tt
           [("table_name", "ec2_instances"); ("region", "us-west-1")] "ec2_instances");
    reflexivity.
Defined.

(** C8 (as stated, refuted). Two mappings with the same set of keys and
    the same [table_name] value, here even with the same value under every
    key, for which the statement texts differ: the clauses follow the
    order in which the mapping yields its keys. *)
Lemma filter_instances_sql_follows_key_order :
  let f1 := [("table_name", "hosts"); ("region", "eu")] in
  let f2 := [("region", "eu"); ("table_name", "hosts")] in
  (forall k, In k (dict_keys f1) <-> In k (dict_keys f2)) /\
  (forall k, dict_get k f1 = dict_get k f2) /\
  executed_sql (trace (run accepting filter_instances tt f1)) =
    ["SELECT * FROM hosts WHERE table_name = %s AND region = %s"] /\
  executed_sql (trace (run accepting filter_instances tt f2)) =
    ["SELECT * FROM hosts WHERE region = %s AND table_name = %s"] /\
  executed_sql (trace (run accepting filter_instances tt f1)) <>
  executed_sql (trace (run accepting filter_instances tt f2)).
Proof.
  cbv zeta. split; [|split; [|split; [|split]]].
  - intros k. simpl. tauto.
  - intros k. simpl.
    destruct (String.eqb_spec k "table_name") as [->|?]; [done|].
    by destruct (String.eqb_spec k "region").
  - reflexivity.
  - reflexivity.
  - discriminate.
Qed.

(** C8 (amended). The statement text is a function of the keys, in the
    order the mapping yields them, and of the [table_name] value: two
    mappings that agree on these send the same text whatever their other
    values are.  Every statement sent is [select_statement] of the table
    name and the keys, and the values travel in the parameter list, one per
    key and in the same order. *)
Theorem filter_instances_sql_ignores_values {W} (h : handler W) (w : W)
    (f1 f2 : list (string * string)) :
  dict_keys f1 = dict_keys f2 ->
  dict_get "table_name" f1 = dict_get "table_name" f2 ->
  executed_sql (trace (run h filter_instances w f1)) =
  executed_sql (trace (run h filter_instances w f2)) /\
  (forall operation args,
     In (operation, args) (executed (trace (run h filter_instances w f1))) ->
     args = map (fun item => VStr item.2) f1 /\
     exists table_name,
       dict_get "table_name" f1 = Some table_name /\
       operation = select_statement table_name (dict_keys f1)).
Proof.
  intros Hkeys Htable.
  pose proof (filter_instances_run h w f1) as H1.
  pose proof (filter_instances_run h w f2) as H2. cbv zeta in H1, H2.
  unfold executed_sql.
  destruct (h pg8000_connect w) as [w1 [e|[]]].
  { destruct H1 as (-> & _), H2 as (-> & _). split; [done|]. by intros ? ? []. }
  destruct (h conn_cursor w1) as [w2 [e|[]]].
  { destruct H1 as (-> & _), H2 as (-> & _). split; [done|]. by intros ? ? []. }
  rewrite <- Htable, <- Hkeys in H2.
  destruct (dict_get "table_name" f1) as [table_name|].
  - destruct H1 as (-> & _), H2 as (-> & _). split; [done|].
    intros operation args [[= <- <-]|[]]. split; [done|]. by exists table_name.
  - destruct H1 as (-> & _), H2 as (-> & _). split; [done|]. by intros ? ? [].
Qed.

Lemma filter_instances_sql_ignores_values_witness :
  executed_sql (trace (run accepting filter_instances tt
                         [("table_name", "hosts"); ("region", "eu")])) =
  executed_sql (trace (run accepting filter_instances tt
                         [("table_name", "hosts"); ("region", "x' OR '1'='1")])).
Proof.
  apply (filter_instances_sql_ignores_values accepting tt
           [("table_name", "hosts"); ("region", "eu")]
           [("table_name", "hosts"); ("region", "x' OR '1'='1")]); reflexivity.
Defined.

(** C1 (the code does otherwise). The clauses are built from the whole
    mapping before [table_name] is popped: for [{table_name: X}] alone the
    statement carries the clause [table_name = %s] with [X] bound to it, and
    for [{table_name: X, col: v}] that clause comes before the one of
    [col]. *)
Theorem filter_instances_table_name_clause (X col v : string) :
  executed (trace (run accepting filter_instances tt [("table_name", X)])) =
    [("SELECT * FROM " +:+ X +:+ " WHERE table_name = %s", [VStr X])] /\
  executed (trace (run accepting filter_instances tt [("table_name", X); (col, v)])) =
    [("SELECT * FROM " +:+ X +:+ " WHERE table_name = %s AND " +:+ col +:+ " = %s",
      [VStr X; VStr v])].
Proof.
  split.
  - etransitivity;
      [exact (proj1 (filter_instances_run accepting tt [("table_name", X)]))|].
    unfold select_statement. simpl. by rewrite append_assoc.
  - etransitivity;
      [exact (proj1 (filter_instances_run accepting tt [("table_name", X); (col, v)]))|].
    unfold select_statement. simpl. by rewrite !append_assoc.
Qed.

Example filter_instances_docstring_call :
  executed (trace (run accepting filter_instances tt
                     [("table_name", "ec2_instances"); ("region", "us-west-1")])) =
  [("SELECT * FROM ec2_instances WHERE table_name = %s AND region = %s",
    [VStr "ec2_instances"; VStr "us-west-1"])].
Proof. reflexivity. Qed.

(** ** Connections on the failure path *)

(** C9 (the code does otherwise). When the executor rejects the statement,
    the connection that was opened is not closed before the error payload is
    returned: [conn.close()] is reached on the success path only. *)
Theorem rejected_statement_leaks_connection (msg : string) :
  let res := run (rejecting msg) (execute_query "SELECT * FROM missing") tt tt in
  let res' := run (rejecting msg) filter_instances tt [("table_name", "missing")] in
  (opened (trace res) = true /\ released (trace res) = false /\
   outcome res = inr (error_payload msg)) /\
  (opened (trace res') = true /\ released (trace res') = false /\
   outcome res' = inr (error_payload msg)) /\
  released (trace (run accepting (execute_query "SELECT * FROM missing") tt tt)) = true.
Proof. repeat split; reflexivity. Qed.

(** Case analysis on every answer of the driver [h] along a run. *)
Ltac drive h :=
  repeat first
    [ lazymatch goal with
      | |- context [h ?c ?w0] => destruct (h c w0) as [? [?|?]]; cbn
      end
    | lazymatch goal with
      | |- context [subscript_row ?row ?i] => destruct (subscript_row row i); cbn
      end
    | lazymatch goal with
      | |- context [column_names_of ?d] => destruct (column_names_of d); cbn
      end
    | lazymatch goal with
      | |- context [format_results ?c ?r] => destruct (format_results c r); cbn
      end
    | lazymatch goal with
      | |- context [comprehension ?f ?r] => destruct (comprehension f r); cbn
      end ].

(** A goal [In ev tr -> _] for a trace [tr] with all its events known. *)
Ltac close_trace :=
  solve [ intros Hin; cbn in Hin;
          repeat (destruct Hin as [Hin|Hin]; [try discriminate|]);
          try done;
          inversion Hin; subst; done ].

(** In every tool and against every driver: once a statement has been
    rejected, the invocation has an open connection, never calls
    [conn.close()], and answers with the message of the rejection. *)
Theorem rejected_statement_never_released {W} (h : handler W) (r : request) (w : W)
    (filters : list (string * string)) (operation : string) (args : list value) (e : exn) :
  let res := run h (tool r) w filters in
  In (EvCall (cursor_execute operation args) (Some e)) (trace res) ->
  opened (trace res) = true /\ released (trace res) = false /\
  outcome res = inr (error_payload (str e)).
Proof.
  cbv zeta. destruct r; unfold tool.
  - unfold execute_query, execute_query_try.
    destruct (startswith (lower (strip query)) "select"); cbn; drive h; close_trace.
  - unfold list_tables, list_tables_try. cbn. drive h; close_trace.
  - unfold get_table_schema, get_table_schema_try. cbn. drive h; close_trace.
  - unfold filter_instances, filter_instances_try, dict_mem, dict_pop. cbn.
    drive h; try close_trace.
    destruct (dict_get "table_name" filters); cbn; drive h; close_trace.
  - unfold get_database_stats, get_database_stats_try. cbn. drive h; close_trace.
Qed.

Lemma rejected_statement_never_released_witness :
  released (trace (run (rejecting "relation does not exist") (tool ListTables) tt [])) = false.
Proof.
  apply (rejected_statement_never_released (rejecting "relation does not exist") ListTables tt []
           list_tables_sql [] (DriverError "relation does not exist")).
  cbn. auto.
Defined.

(** ** The normalizer *)

Lemma dict_get_set {V} (k k' : string) (v : V) (d : list (string * V)) :
  dict_get k' (dict_set k v d) = if String.eqb k' k then Some v else dict_get k' d.
Proof.
  induction d as [|[k0 v0] d IH]; simpl.
  - done.
  - destruct (String.eqb_spec k k0) as [->|Hne]; simpl.
    + by destruct (String.eqb k' k0).
    + rewrite IH. destruct (String.eqb_spec k' k0) as [->|?]; [|done].
      by destruct (String.eqb_spec k0 k) as [->|?].
Qed.

Lemma dict_keys_set {V} (k : string) (v : V) (d : list (string * V)) :
  dict_keys (dict_set k v d) = add_key (dict_keys d) k.
Proof.
  unfold add_key. induction d as [|[k0 v0] d IH]; simpl; [done|].
  destruct (String.eqb_spec k k0) as [->|Hne]; simpl.
  - rewrite bool_decide_eq_true_2; [done|]. apply list_elem_of_here.
  - rewrite IH. destruct (decide (k ∈ dict_keys d)) as [Hin|Hnin].
    + rewrite !bool_decide_eq_true_2; [done| |done]. by apply list_elem_of_further.
    + rewrite !bool_decide_eq_false_2; [done| |done].
      intros [?|?]%elem_of_cons; done.
Qed.

(** The keys [fold_left add_key] adds to [seen]: those of [ks] not seen
    before, each once, in the order of [ks]. *)
Lemma add_keys_spec (ks seen : list string) :
  exists new,
    fold_left add_key ks seen = seen ++ new /\
    sublist new ks /\
    (forall k, k ∈ new <-> k ∈ ks /\ k ∉ seen) /\
    (NoDup (seen ++ ks) -> new = ks).
Proof.
  revert seen. induction ks as [|k ks IH]; intros seen; simpl.
  - exists []. rewrite app_nil_r. split; [done|]. split; [done|]. split; [|done].
    intros k. rewrite elem_of_nil. tauto.
  - destruct (IH (add_key seen k)) as (new & Hfold & Hsub & Hmem & Hnodup).
    unfold add_key in *. destruct (decide (k ∈ seen)) as [Hin|Hnin].
    + rewrite bool_decide_eq_true_2 in * by done.
      exists new. split; [done|]. split; [by apply sublist_cons|]. split.
      * intros k'. rewrite Hmem, elem_of_cons. split; [tauto|].
        intros [[->|?] ?]; tauto.
      * intros Hnd. apply NoDup_app in Hnd as (_ & Hdisj & _).
        exfalso. apply (Hdisj k Hin). apply list_elem_of_here.
    + rewrite bool_decide_eq_false_2 in * by done.
      exists (k :: new). rewrite Hfold, <- app_assoc. split; [done|].
      split; [by apply sublist_skip|]. split.
      * intros k'. rewrite !elem_of_cons, Hmem, elem_of_app, list_elem_of_singleton.
        destruct (decide (k' = k)) as [->|?]; tauto.
      * intros Hnd. f_equal. apply Hnodup. by rewrite <- app_assoc.
Qed.

Lemma first_seen_spec (column_names : list string) :
  sublist (first_seen column_names) column_names /\
  (forall k, k ∈ first_seen column_names <-> k ∈ column_names) /\
  (NoDup column_names -> first_seen column_names = column_names).
Proof.
  unfold first_seen. destruct (add_keys_spec column_names []) as (new & -> & Hsub & Hmem & Hnd).
  simpl. split; [done|]. split; [|done].
  intros k. rewrite Hmem. split; [tauto|]. intros ?. split; [done|]. apply not_elem_of_nil.
Qed.

Lemma fill_record_ok (column_names : list string) (i : nat) (row : list value)
    (record : list (string * value)) :
  (i + length column_names <= length row)%nat ->
  exists record',
    fill_record column_names i row record = inr record' /\
    dict_keys record' = fold_left add_key column_names (dict_keys record) /\
    (forall k, k ∉ column_names -> dict_get k record' = dict_get k record) /\
    (forall j col, column_names !! j = Some col -> col ∉ drop (Datatypes.S j) column_names ->
                   dict_get col record' = row !! (i + j)%nat).
Proof.
  revert i record. induction column_names as [|c cols IH]; intros i record Hlen; simpl in *.
  - exists record. repeat split; try done.
  - unfold subscript. destruct (row !! i) as [v|] eqn:Hv.
    2:{ apply lookup_ge_None in Hv. lia. }
    destruct (IH (Datatypes.S i) (dict_set c v record)) as (record' & Hfill & Hkeys & Hold & Hnew);
      [lia|].
    exists record'. split; [done|]. split; [by rewrite Hkeys, dict_keys_set|]. split.
    + intros k Hk. apply not_elem_of_cons in Hk as [Hne Hk].
      rewrite (Hold k Hk), dict_get_set. by destruct (String.eqb_spec k c).
    + intros [|j] col Hcol Hlast; simpl in *.
      * injection Hcol as <-. rewrite (Hold c Hlast), dict_get_set, String.eqb_refl.
        by rewrite Nat.add_0_r.
      * rewrite (Hnew j col Hcol Hlast). f_equal. lia.
Qed.

(** C5. When every fetched row is at least as long as the column list, the
    normalizer returns one record per row, in fetch order.  Every record
    has the same keys in the same order, whatever the values are ([VNone]
    included): the column names in description order, a repeated name
    counted once at its first place, so exactly the description when the
    names are distinct.  Under a name a record holds the row's field at the
    last column of that name. *)
Theorem format_results_uniform (column_names : list string) (results : list (list value)) :
  Forall (fun row => (length column_names <= length row)%nat) results ->
  exists records,
    format_results column_names results = inr (map VDict records) /\
    Forall2 (fun row record =>
               dict_keys record = first_seen column_names /\
               forall i col, column_names !! i = Some col ->
                             col ∉ drop (Datatypes.S i) column_names ->
                             dict_get col record = row !! i)
            results records /\
    sublist (first_seen column_names) column_names /\
    (forall k, k ∈ first_seen column_names <-> k ∈ column_names) /\
    (NoDup column_names -> first_seen column_names = column_names).
Proof.
  intros Hrows.
  assert (Hrec : exists records,
    format_results column_names results = inr (map VDict records) /\
    Forall2 (fun row record =>
               dict_keys record = first_seen column_names /\
               forall i col, column_names !! i = Some col ->
                             col ∉ drop (Datatypes.S i) column_names ->
                             dict_get col record = row !! i)
            results records).
  { unfold format_results. induction Hrows as [|row rows Hrow _ IH]; simpl.
    - exists []. by split; [|constructor].
    - destruct (fill_record_ok column_names 0 row [] Hrow) as (record & -> & Hkeys & _ & Hval).
      destruct IH as (records & -> & Hall).
      exists (record :: records). split; [done|]. constructor; [|done]. split; [done|].
      intros i col Hcol Hlast. by rewrite (Hval i col Hcol Hlast). }
  destruct Hrec as (records & Hfmt & Hall). exists records.
  split; [done|]. split; [done|]. apply first_seen_spec.
Qed.

Lemma format_results_uniform_witness :
  exists records,
    format_results ["id"; "name"] [[VInt 1; VStr "ada"]; [VInt 2; VNone]] = inr (map VDict records) /\
    Forall (fun record => dict_keys record = ["id"; "name"]) records.
Proof.
  destruct (format_results_uniform ["id"; "name"] [[VInt 1; VStr "ada"]; [VInt 2; VNone]])
    as (records & Hfmt & Hall & _ & _ & Hnodup).
  - repeat constructor.
  - exists records. split; [exact Hfmt|].
    rewrite <- Hnodup by (by apply (bool_decide_unpack _)).
    clear Hfmt. induction Hall as [|? ? ? ? [Hk _] _ IH]; constructor; done.
Defined.

(** ** The catalogue tools on the reference executor *)

Lemma comprehension_map {A B C} (f : B -> exn + C) (g : A -> B) (k : A -> C) (xs : list A) :
  (forall x, f (g x) = inr (k x)) ->
  comprehension f (map g xs) = inr (map k xs).
Proof.
  intros Hf. induction xs as [|x xs IH]; simpl; [done|]. by rewrite Hf, IH.
Qed.

Lemma comprehension_Forall2 {A B} (f : A -> exn + B) (xs : list A) (ys : list B) :
  comprehension f xs = inr ys -> Forall2 (fun x y => f x = inr y) xs ys.
Proof.
  revert ys. induction xs as [|x xs IH]; simpl; intros ys.
  - intros [= <-]. constructor.
  - destruct (f x) as [e|y] eqn:Hx; [done|].
    destruct (comprehension f xs) as [e|ys']; [done|].
    intros [= <-]. constructor; [done | by apply IH].
Qed.

(** A statement of the server as the reference executor answers it. *)
Lemma statement_result_table_schema db name :
  statement_result db table_schema_sql [VStr name] =
  inr ([("column_name", text_oid); ("data_type", text_oid);
        ("is_nullable", text_oid); ("column_default", text_oid)],
       map column_row (table_schema_rows db name)).
Proof. reflexivity. Qed.

Lemma statement_result_database_size db :
  statement_result db database_size_sql [] =
  inr ([("pg_size_pretty", text_oid)], [[VStr (db_size_pretty db (db_database_size db))]]).
Proof. reflexivity. Qed.

Lemma statement_result_table_count db :
  statement_result db table_count_sql [] =
  inr ([("count", int8_oid)], [[VInt (Z.of_nat (length (public_tables db)))]]).
Proof. reflexivity. Qed.

Lemma statement_result_version db :
  statement_result db version_sql [] = inr ([("version", text_oid)], [[VStr (db_version db)]]).
Proof. reflexivity. Qed.

Lemma statement_result_largest_tables db :
  statement_result db largest_tables_sql [] =
  inr ([("table_name", text_oid); ("size", text_oid)],
       map (largest_row db) (largest_tables_rows db)).
Proof. reflexivity. Qed.

Lemma get_table_schema_postgres {S} (db : database) (s : S) (name : string) :
  outcome (run postgres (get_table_schema name) (fresh db) s) =
  inr (VList (map column_entry (table_schema_rows db name))).
Proof.
  unfold get_table_schema, get_table_schema_try. cbn -[statement_result].
  rewrite statement_result_table_schema. cbn -[statement_result].
  rewrite (comprehension_map column_record column_row column_entry) by done.
  reflexivity.
Qed.

Lemma get_database_stats_postgres {S} (db : database) (s : S) :
  outcome (run postgres get_database_stats (fresh db) s) =
  inr (VDict [ ("database_size", VStr (db_size_pretty db (db_database_size db)));
               ("table_count", VInt (Z.of_nat (length (public_tables db))));
               ("postgres_version", VStr (db_version db));
               ("largest_tables", VList (map (largest_entry db) (largest_tables_rows db))) ]).
Proof.
  unfold get_database_stats, get_database_stats_try. cbn -[statement_result].
  rewrite statement_result_database_size. cbn -[statement_result].
  rewrite statement_result_table_count. cbn -[statement_result].
  rewrite statement_result_version. cbn -[statement_result].
  rewrite statement_result_largest_tables. cbn -[statement_result].
  rewrite (comprehension_map largest_record (largest_row db) (largest_entry db)) by done.
  reflexivity.
Qed.

Global Instance by_size_desc_total db : Total (by_size_desc db).
Proof. intros a b. unfold by_size_desc. lia. Qed.

Global Instance by_size_desc_transitive db : Transitive (by_size_desc db).
Proof. intros a b c. unfold by_size_desc. lia. Qed.

Global Instance by_ordinal_position_total : Total by_ordinal_position.
Proof. intros a b. unfold by_ordinal_position. lia. Qed.

Global Instance by_ordinal_position_transitive : Transitive by_ordinal_position.
Proof. intros a b c. unfold by_ordinal_position. lia. Qed.

Lemma largest_tables_rows_spec (db : database) :
  (length (largest_tables_rows db) <= 5)%nat /\
  StronglySorted (by_size_desc db) (largest_tables_rows db) /\
  (forall t, t ∈ largest_tables_rows db -> t ∈ db_tables db /\ tab_table_schema t = "public").
Proof.
  unfold largest_tables_rows. split; [rewrite length_take; lia|]. split.
  - apply StronglySorted_app_1_l with (l2 := drop 5 (merge_sort (by_size_desc db) (public_tables db))).
    rewrite take_drop. apply StronglySorted_merge_sort; apply _.
  - intros t Ht. apply elem_of_take in Ht as (i & Ht & _).
    apply list_elem_of_lookup_2 in Ht. rewrite merge_sort_Permutation in Ht.
    unfold public_tables in Ht. by apply list_elem_of_filter in Ht as [? ?].
Qed.

(** Whatever the driver answers, [get_database_stats] returns an error
    payload or the four-key mapping with one [{table, size}] record per row
    fetched for the last statement. *)
Lemma get_database_stats_any_driver {W S} (h : handler W) (w : W) (s : S) :
  (exists msg, outcome (run h get_database_stats w s) = inr (error_payload msg)) \/
  (exists db_size table_count version largest,
     outcome (run h get_database_stats w s) =
       inr (VDict [ ("database_size", db_size); ("table_count", table_count);
                    ("postgres_version", version); ("largest_tables", VList largest) ]) /\
     Forall (fun entry => exists t size, entry = VDict [("table", t); ("size", size)]) largest).
Proof.
  unfold get_database_stats. rewrite run_try_except. cbv zeta.
  destruct (outcome (run h get_database_stats_try w s)) as [e|v] eqn:Hout; [left; by eexists|].
  right. revert Hout. unfold get_database_stats_try. cbn.
  repeat lazymatch goal with
  | |- context [h ?c ?w0] => destruct (h c w0) as [? [?|?]]; cbn; [done|]
  | |- context [subscript_row ?row 0] => destruct (subscript_row row 0); cbn; [done|]
  end.
  match goal with
  | |- context [comprehension largest_record ?rows] =>
      destruct (comprehension largest_record rows) as [?|largest] eqn:Hrows; cbn; [done|]
  end.
  repeat lazymatch goal with
  | |- context [h ?c ?w0] => destruct (h c w0) as [? [?|?]]; cbn; [done|]
  end.
  intros [= <-]. do 4 eexists. split; [done|].
  apply comprehension_Forall2 in Hrows. clear -Hrows.
  induction Hrows as [|row entry rows largest Hrow _ IH]; constructor; [|done].
  unfold largest_record in Hrow.
  destruct (subscript row 0) as [?|t]; [done|]. destruct (subscript row 1) as [?|size]; [done|].
  injection Hrow as <-. by do 2 eexists.
Qed.

(** C6. [get_database_stats] answers with an error payload or with a
    mapping of exactly the keys [database_size], [table_count],
    [postgres_version], [largest_tables], the last one a list of
    [{table, size}] records.  On the reference executor, for every database,
    it answers with the mapping, and [largest_tables] has one record for each
    of at most five tables of schema [public], in descending order of
    their total relation size. *)
Theorem get_database_stats_shape {W S} (h : handler W) (w : W) (s : S) (db : database) :
  ((exists msg, outcome (run h get_database_stats w s) = inr (error_payload msg)) \/
   (exists stats largest,
      outcome (run h get_database_stats w s) = inr (VDict stats) /\
      dict_keys stats = ["database_size"; "table_count"; "postgres_version"; "largest_tables"] /\
      dict_get "largest_tables" stats = Some (VList largest) /\
      Forall (fun entry => exists t size, entry = VDict [("table", t); ("size", size)]) largest)) /\
  (exists stats tables,
     outcome (run postgres get_database_stats (fresh db) s) = inr (VDict stats) /\
     dict_keys stats = ["database_size"; "table_count"; "postgres_version"; "largest_tables"] /\
     dict_get "largest_tables" stats =
       Some (VList (map (fun t => VDict [ ("table", VStr (tab_table_name t));
                                          ("size", VStr (size_of db t)) ]) tables)) /\
     (length tables <= 5)%nat /\
     StronglySorted
       (fun a b => db_total_relation_size db (tab_table_name b)
                   <= db_total_relation_size db (tab_table_name a)) tables /\
     (forall t, t ∈ tables -> t ∈ db_tables db /\ tab_table_schema t = "public")).
Proof.
  split.
  - destruct (get_database_stats_any_driver h w s)
      as [Herr|(db_size & table_count & version & largest & Hout & Hshape)]; [by left|].
    right. eexists _, largest. split; [exact Hout|]. by repeat split.
  - eexists _, (largest_tables_rows db). split; [apply get_database_stats_postgres|].
    split; [done|]. split; [done|]. apply largest_tables_rows_spec.
Qed.

(** ** [get_table_schema] *)

(** For every database and table name, on the reference executor:
    [get_table_schema] returns one record per row of
    [information_schema.columns] with that table name, whatever the schema,
    each with the keys [column_name], [data_type], [is_nullable],
    [default_value] in this order, and the records follow the ordinal
    positions. *)
Theorem get_table_schema_records {S} (db : database) (s : S) (name : string) :
  exists cols,
    outcome (run postgres (get_table_schema name) (fresh db) s) =
      inr (VList (map column_entry cols)) /\
    Forall (fun entry => exists items, entry = VDict items /\
              dict_keys items = ["column_name"; "data_type"; "is_nullable"; "default_value"])
           (map column_entry cols) /\
    cols ≡ₚ columns_named db name /\
    length (map column_entry cols) = length (columns_named db name) /\
    StronglySorted (fun a b => col_ordinal_position a <= col_ordinal_position b) cols.
Proof.
  exists (table_schema_rows db name). split; [apply get_table_schema_postgres|].
  unfold table_schema_rows. split; [|split; [|split]].
  - apply Forall_forall. intros entry (c & -> & _)%list_elem_of_fmap. by eexists.
  - apply merge_sort_Permutation.
  - by rewrite length_map, merge_sort_Permutation.
  - apply (StronglySorted_merge_sort by_ordinal_position).
Qed.

(** C3 (the code does otherwise). The statement of [get_table_schema]
    filters on the table name alone: with [users] in schemas [public] and
    [audit], the tool returns three records, the column of [audit.users]
    among them, while table [users] of schema [public] has two columns. *)
Theorem get_table_schema_counts_other_schemas :
  length (public_columns two_schemas "users") = 2%nat /\
  outcome (run postgres (get_table_schema "users") (fresh two_schemas) tt) =
    inr (VList
           [ VDict [ ("column_name", VStr "changed_at"); ("data_type", VStr "timestamp");
                     ("is_nullable", VStr "NO"); ("default_value", VStr "now()") ];
             VDict [ ("column_name", VStr "id"); ("data_type", VStr "integer");
                     ("is_nullable", VStr "NO"); ("default_value", VNone) ];
             VDict [ ("column_name", VStr "email"); ("data_type", VStr "text");
                     ("is_nullable", VStr "YES"); ("default_value", VNone) ] ]).
Proof. split; reflexivity. Qed.

(** ** The calls of an invocation *)

Lemma filter_instances_statement (table_name : string) (filters : list (string * string)) :
  match map (fun item : string * string => item.1 +:+ " = %s") filters with
  | [] => "SELECT * FROM " +:+ table_name
  | _ :: _ =>
      ("SELECT * FROM " +:+ table_name) +:+ " WHERE " +:+
      join " AND " (map (fun item : string * string => item.1 +:+ " = %s") filters)
  end = select_statement table_name (dict_keys filters).
Proof. unfold select_statement, dict_keys. rewrite map_map. by destruct filters. Qed.

(** Case analysis on a whole run of any tool against the driver [h]. *)
Ltac drive_tool h r filters :=
  destruct r; unfold tool, planned, is_select;
  [ unfold execute_query, execute_query_try;
    destruct (startswith (lower (strip _)) "select"); cbn; drive h
  | unfold list_tables, list_tables_try; cbn; drive h
  | unfold get_table_schema, get_table_schema_try; cbn; drive h
  | unfold filter_instances, filter_instances_try, dict_mem, dict_pop; cbn; drive h;
    try (destruct (dict_get "table_name" filters) as [?table_name|]; cbn;
         rewrite ?filter_instances_statement; drive h)
  | unfold get_database_stats, get_database_stats_try; cbn; drive h ].

(** Every tool, against every driver: the driver calls of an invocation
    begin with [pg8000.connect], which is called once at most, and no call
    follows [conn.close()]. *)
Theorem tool_call_discipline {W} (h : handler W) (r : request) (w : W)
    (filters : list (string * string)) :
  let calls := calls_of (trace (run h (tool r) w filters)) in
  connects_once_first calls = true /\ close_is_last calls = true.
Proof. cbv zeta. drive_tool h r filters; by split. Qed.

(** Every tool, against every driver: the first driver call that raises is
    the last driver call of the invocation. *)
Theorem first_failure_is_terminal {W} (h : handler W) (r : request) (w : W)
    (filters : list (string * string)) :
  calls_of (after_failure (trace (run h (tool r) w filters))) = [].
Proof. drive_tool h r filters; reflexivity. Qed.

(** Every tool, against every driver: an answer that is not an error payload
    comes from an invocation that opened a connection and closed it, the
    close being its last driver call. *)
Theorem success_closes_connection {W} (h : handler W) (r : request) (w : W)
    (filters : list (string * string)) :
  let res := run h (tool r) w filters in
  (forall msg, outcome res <> inr (error_payload msg)) ->
  opened (trace res) = true /\ released (trace res) = true /\
  last (calls_of (trace res)) = Some conn_close.
Proof.
  cbv zeta.
  drive_tool h r filters; intros Hne; first [ by exfalso; eapply Hne | by repeat split ].
Qed.

Lemma success_closes_connection_witness :
  released (trace (run (serving [("n", 23%Z)] [[VInt 1]]) (tool (ExecuteQuery "select 1 as n")) tt []))
  = true.
Proof.
  apply (success_closes_connection (serving [("n", 23%Z)] [[VInt 1]])
           (ExecuteQuery "select 1 as n") tt []).
  intros msg. cbn. discriminate.
Defined.

(** Every tool, against every driver: the statements executed are the first
    statements of the tool's plan, in order and with the planned parameters;
    when the answer is not an error payload they are the whole plan. *)
Theorem executed_follows_plan {W} (h : handler W) (r : request) (w : W)
    (filters : list (string * string)) :
  let res := run h (tool r) w filters in
  executed (trace res) `prefix_of` planned r filters /\
  ((forall msg, outcome res <> inr (error_payload msg)) ->
   executed (trace res) = planned r filters).
Proof.
  cbv zeta.
  drive_tool h r filters;
    (split; [ by eexists | intros Hne; first [ by exfalso; eapply Hne | done ] ]).
Qed.

(** ** More on the normalizer *)

Lemma fill_record_short (column_names : list string) (i : nat) (row : list value)
    (record : list (string * value)) :
  (i <= length row < i + length column_names)%nat ->
  fill_record column_names i row record = inl (IndexError "list index out of range").
Proof.
  revert i record. induction column_names as [|c cols IH]; intros i record Hlen; simpl in *.
  - lia.
  - unfold subscript. destruct (row !! i) as [v|] eqn:Hv; [|done].
    apply IH. apply lookup_lt_Some in Hv. lia.
Qed.

(** The normalizer succeeds exactly when every row has a field for every
    column; it then returns one record per row.  Otherwise it raises the
    [IndexError] of the first short row and no record is returned at all. *)
Theorem format_results_total_or_index_error (column_names : list string)
    (results : list (list value)) :
  match format_results column_names results with
  | inr records =>
      Forall (fun row => (length column_names <= length row)%nat) results /\
      length records = length results
  | inl e =>
      e = IndexError "list index out of range" /\
      Exists (fun row => (length row < length column_names)%nat) results
  end.
Proof.
  unfold format_results. induction results as [|row rows IH]; simpl; [by split|].
  destruct (decide (length column_names <= length row)%nat) as [Hlong|Hshort].
  - destruct (fill_record_ok column_names 0 row [] Hlong) as (record & -> & _).
    destruct (comprehension _ rows) as [e|records].
    + destruct IH as [-> Hex]. split; [done|]. by apply Exists_cons_tl.
    + destruct IH as [Hall Hlen]. split; [by constructor|]. simpl. by rewrite Hlen.
  - rewrite fill_record_short by lia. split; [done|]. apply Exists_cons_hd. lia.
Qed.

Lemma format_results_records (column_names : list string) (results : list (list value))
    (l : list value) :
  format_results column_names results = inr l ->
  exists records,
    l = map VDict records /\
    length records = length results /\
    Forall (fun record => dict_keys record = first_seen column_names) records.
Proof.
  unfold format_results. revert l. induction results as [|row rows IH]; intros l; simpl.
  - intros [= <-]. by exists [].
  - destruct (fill_record column_names 0 row []) as [e|record] eqn:Hfill; [done|].
    destruct (comprehension _ rows) as [e|l']; [done|]. intros [= <-].
    destruct (IH l' eq_refl) as (records & -> & Hlen & Hkeys).
    exists (record :: records). split; [done|]. split; [simpl; by rewrite Hlen|].
    constructor; [|done].
    destruct (decide (length column_names <= length row)%nat) as [Hlong|Hshort].
    + destruct (fill_record_ok column_names 0 row [] Hlong) as (record' & Hfill' & Hk & _).
      rewrite Hfill in Hfill'. by injection Hfill' as <-.
    + rewrite fill_record_short in Hfill by lia. done.
Qed.

Lemma add_keys_length (ks seen : list string) :
  NoDup seen ->
  (length (fold_left add_key ks seen) <= length seen + length ks)%nat /\
  (length (fold_left add_key ks seen) = length seen + length ks <-> NoDup (seen ++ ks))%nat.
Proof.
  revert seen. induction ks as [|k ks IH]; intros seen Hseen; simpl.
  - rewrite app_nil_r. split; [lia|]. split; [done|lia].
  - unfold add_key at 2 4. destruct (decide (k ∈ seen)) as [Hin|Hnin].
    + rewrite bool_decide_eq_true_2 by done. destruct (IH seen Hseen) as [Hle _].
      split; [lia|]. split; [lia|].
      intros Hnd. apply NoDup_app in Hnd as (_ & Hdisj & _).
      exfalso. apply (Hdisj k Hin), list_elem_of_here.
    + rewrite bool_decide_eq_false_2 by done.
      assert (Hseen' : NoDup (seen ++ [k])).
      { apply NoDup_app. split; [done|]. split; [|apply NoDup_singleton].
        intros x Hx ->%list_elem_of_singleton. done. }
      destruct (IH (seen ++ [k]) Hseen') as [Hle Hiff].
      rewrite length_app in Hle, Hiff. simpl in Hle, Hiff. rewrite <- app_assoc in Hiff.
      simpl in Hiff. split; [lia|]. rewrite <- Hiff. lia.
Qed.

(** The record of one row has one entry per distinct column name: with a
    field for every column it has as many entries as the row has columns
    exactly when no two columns share a name, and fewer otherwise. *)
Theorem fill_record_merges_repeated_names (column_names : list string) (row : list value) :
  (length column_names <= length row)%nat ->
  exists record,
    fill_record column_names 0 row [] = inr record /\
    (length record <= length column_names)%nat /\
    (length record = length column_names <-> NoDup column_names).
Proof.
  intros Hlen. destruct (fill_record_ok column_names 0 row [] Hlen) as (record & Hfill & Hkeys & _).
  exists record. split; [done|].
  assert (Hl : length record = length (fold_left add_key column_names [])).
  { cbn in Hkeys. rewrite <- Hkeys. unfold dict_keys. by rewrite length_map. }
  rewrite Hl. destruct (add_keys_length column_names [] (NoDup_nil_2)) as [Hle Hiff].
  simpl in Hle, Hiff. done.
Qed.

Lemma fill_record_merges_repeated_names_witness :
  exists record,
    fill_record ["id"; "name"; "id"] 0 [VInt 1; VStr "ada"; VInt 7] [] = inr record /\
    (length record <= 3)%nat.
Proof.
  destruct (fill_record_merges_repeated_names ["id"; "name"; "id"] [VInt 1; VStr "ada"; VInt 7])
    as (record & Hfill & Hle & _).
  - simpl. lia.
  - exists record. split; [exact Hfill | exact Hle].
Defined.

(** ** What a tool returns *)

(** The value of a [try] block that does not raise. *)
Lemma try_block_value {W} (h : handler W) (r : request) (w : W)
    (filters : list (string * string)) (v : value) :
  outcome (run h (try_block r) w filters) = inr v ->
  match r with
  | GetDatabaseStats =>
      exists db_size table_count version largest,
        v = VDict [ ("database_size", db_size); ("table_count", table_count);
                    ("postgres_version", version); ("largest_tables", VList largest) ]
  | ExecuteQuery _ | FilterInstances =>
      exists records keys,
        v = VList (map VDict records) /\
        Forall (fun record => dict_keys record = keys) records
  | ListTables | GetTableSchema _ => exists l, v = VList l
  end.
Proof.
  destruct r; unfold try_block.
  - unfold execute_query_try.
    destruct (startswith (lower (strip query)) "select"); cbn; [|done].
    repeat lazymatch goal with
    | |- context [h ?c ?w0] => destruct (h c w0) as [? [?|?]]; cbn; [done|]
    | |- context [column_names_of ?d] => destruct (column_names_of d); cbn; [done|]
    end.
    destruct (format_results _ _) as [?|formatted] eqn:Hfmt; cbn; [done|]. intros [= <-].
    destruct (format_results_records _ _ _ Hfmt) as (records & -> & _ & Hkeys). eauto.
  - unfold list_tables_try. cbn. drive h; try done. intros [= <-]. eauto.
  - unfold get_table_schema_try. cbn. drive h; try done. intros [= <-]. eauto.
  - unfold filter_instances_try, dict_mem, dict_pop. cbn.
    repeat lazymatch goal with
    | |- context [h ?c ?w0] => destruct (h c w0) as [? [?|?]]; cbn; [done|]
    end.
    destruct (dict_get "table_name" filters); cbn; [|done].
    repeat lazymatch goal with
    | |- context [h ?c ?w0] => destruct (h c w0) as [? [?|?]]; cbn; [done|]
    | |- context [column_names_of ?d] => destruct (column_names_of d); cbn; [done|]
    end.
    destruct (format_results _ _) as [?|formatted] eqn:Hfmt; cbn; [done|]. intros [= <-].
    destruct (format_results_records _ _ _ Hfmt) as (records & -> & _ & Hkeys). eauto.
  - unfold get_database_stats_try. cbn. drive h; try done. intros [= <-]. eauto 10.
Qed.

(** Every tool, against every driver: the answer is an error payload exactly
    when the [try] block raised, so a caller can tell a failure from a
    result by the shape of the answer. *)
Theorem error_payload_iff_raised {W} (h : handler W) (r : request) (w : W)
    (filters : list (string * string)) :
  (exists msg, outcome (run h (tool r) w filters) = inr (error_payload msg)) <->
  (exists e, outcome (run h (try_block r) w filters) = inl e).
Proof.
  rewrite tool_try_except, run_try_except. cbv zeta.
  destruct (outcome (run h (try_block r) w filters)) as [e|v] eqn:Hout; simpl.
  - split; intros _; by eexists.
  - split; [|by intros [? ?]]. intros [msg Hv]. rewrite Hout in Hv. injection Hv as ->.
    apply try_block_value in Hout. exfalso. destruct r.
    + by destruct Hout as (? & ? & ? & _).
    + by destruct Hout as (? & ?).
    + by destruct Hout as (? & ?).
    + by destruct Hout as (? & ? & ? & _).
    + by destruct Hout as (? & ? & ? & ? & ?).
Qed.

(** [execute_query] and [filter_instances], against every driver: the
    answer is an error payload or a list of records that all have the same
    keys in the same order. *)
Theorem record_tools_uniform_keys {W} (h : handler W) (r : request) (w : W)
    (filters : list (string * string)) :
  match r with
  | ExecuteQuery _ | FilterInstances =>
      (exists msg, outcome (run h (tool r) w filters) = inr (error_payload msg)) \/
      (exists records keys,
         outcome (run h (tool r) w filters) = inr (VList (map VDict records)) /\
         Forall (fun record => dict_keys record = keys) records)
  | _ => True
  end.
Proof.
  pose proof (try_block_value h r w filters) as Hval.
  destruct r; try done; rewrite tool_try_except, run_try_except; cbv zeta;
    (destruct (outcome (run h (try_block _) w filters)) as [e|v] eqn:Hout;
     [left; by eexists | right]);
    destruct (Hval v eq_refl) as (records & keys & -> & Hkeys);
    exists records, keys; by rewrite Hout.
Qed.

(** ** The read-only gate, character by character *)

Lemma is_space_lower_char (c : ascii) : is_space (lower_char c) = is_space c.
Proof. destruct c as [[] [] [] [] [] [] [] []]; reflexivity. Qed.

Lemma lstrip_spaces (ws s : string) : all_space ws = true -> lstrip (ws +:+ s) = lstrip s.
Proof.
  induction ws as [|c ws IH]; [done|]. simpl. intros [Hc Hws]%andb_true_iff.
  change (String c ws +:+ s) with (String c (ws +:+ s)). simpl. rewrite Hc. by apply IH.
Qed.

Lemma lstrip_all_space (ws : string) : all_space ws = true -> lstrip ws = "".
Proof.
  induction ws as [|c ws IH]; [done|]. simpl. intros [Hc Hws]%andb_true_iff.
  rewrite Hc. by apply IH.
Qed.

Lemma rstrip_cons (c : ascii) (s : string) :
  is_space c = false -> rstrip (String c s) = String c (rstrip s).
Proof. intros Hc. simpl. rewrite Hc. by destruct (rstrip s). Qed.

Lemma prefix_append (p s : string) : String.prefix p (p +:+ s) = true.
Proof.
  induction p as [|a p IH]; [by destruct s|].
  change (String a p +:+ s) with (String a (p +:+ s)). simpl.
  by destruct (ascii_dec a a).
Qed.

Lemma prefix_head_differs (a b : ascii) (p s : string) :
  a <> b -> String.prefix (String a p) (String b s) = false.
Proof. intros Hne. simpl. by destruct (ascii_dec a b). Qed.

Lemma lower_char_not_space (c x : ascii) :
  lower_char c = x -> is_space x = false -> is_space c = false.
Proof. intros <-. by rewrite is_space_lower_char. Qed.

(** The check of line 69 looks at the first non-blank characters only:
    after any white space, a text that spells [select] in any mix of cases
    passes whatever follows it; a text whose first non-blank character is
    not an [s] or [S] is refused, and so is a blank text. *)
Theorem select_gate_reads_a_prefix (ws kw rest : string) (c : ascii) :
  all_space ws = true ->
  (lower kw = "select" -> is_select (ws +:+ kw +:+ rest) = true) /\
  (is_space c = false -> lower_char c <> "s"%char ->
   is_select (ws +:+ String c rest) = false) /\
  is_select ws = false.
Proof.
  intros Hws. unfold is_select, strip, startswith. split; [|split].
  - intros Hkw.
    destruct kw as [|c1 [|c2 [|c3 [|c4 [|c5 [|c6 [|c7 kw]]]]]]]; try discriminate Hkw.
    simpl in Hkw. injection Hkw as H1 H2 H3 H4 H5 H6.
    rewrite lstrip_spaces by done.
    change (String c1 (String c2 (String c3 (String c4 (String c5 (String c6 ""))))) +:+ rest)
      with (String c1 (String c2 (String c3 (String c4 (String c5 (String c6 rest)))))).
    assert (is_space c1 = false) by (by apply (lower_char_not_space _ _ H1)).
    assert (is_space c2 = false) by (by apply (lower_char_not_space _ _ H2)).
    assert (is_space c3 = false) by (by apply (lower_char_not_space _ _ H3)).
    assert (is_space c4 = false) by (by apply (lower_char_not_space _ _ H4)).
    assert (is_space c5 = false) by (by apply (lower_char_not_space _ _ H5)).
    assert (is_space c6 = false) by (by apply (lower_char_not_space _ _ H6)).
    replace (lstrip (String c1 (String c2 (String c3 (String c4 (String c5 (String c6 rest)))))))
      with (String c1 (String c2 (String c3 (String c4 (String c5 (String c6 rest))))))
      by (simpl; by rewrite H).
    rewrite !rstrip_cons by done. cbn [lower]. rewrite H1, H2, H3, H4, H5, H6.
    exact (prefix_append "select" _).
  - intros Hc Hs. rewrite lstrip_spaces by done.
    replace (lstrip (String c rest)) with (String c rest) by (simpl; by rewrite Hc).
    rewrite rstrip_cons by done. cbn [lower]. apply prefix_head_differs. congruence.
  - by rewrite lstrip_all_space.
Qed.

Lemma select_gate_reads_a_prefix_witness :
  is_select ("  " +:+ "SeLeCt" +:+ " 1; DROP TABLE users") = true /\
  is_select (" " +:+ String "("%char "select 1)") = false.
Proof.
  destruct (select_gate_reads_a_prefix "  " "SeLeCt" " 1; DROP TABLE users" "("%char eq_refl)
    as (Hpass & _ & _).
  destruct (select_gate_reads_a_prefix " " "" "select 1)" "("%char eq_refl)
    as (_ & Hrefuse & _).
  split; [apply Hpass; reflexivity | apply Hrefuse; [reflexivity | discriminate]].
Defined.

(** ** More on [filter_instances] *)

(** A mapping without [table_name], with the server reachable: the tool
    has opened a connection and a cursor by the time it refuses the mapping,
    makes no other call, leaves the connection open and the caller's
    dictionary as it was. *)
Theorem filter_instances_refusal_keeps_connection {W} (h : handler W) (w w1 w2 : W)
    (filters : list (string * string)) :
  dict_mem "table_name" filters = false ->
  h pg8000_connect w = (w1, inr tt) ->
  h conn_cursor w1 = (w2, inr tt) ->
  let res := run h filter_instances w filters in
  calls_of (trace res) = [pg8000_connect; conn_cursor] /\
  opened (trace res) = true /\ released (trace res) = false /\
  store res = filters.
Proof.
  intros Hmem Hconn Hcur. unfold filter_instances, filter_instances_try. cbn.
  rewrite Hconn. cbn. rewrite Hcur. cbn. rewrite Hmem. by cbn.
Qed.

Lemma filter_instances_refusal_keeps_connection_witness :
  released (trace (run accepting filter_instances tt [("region", "eu")])) = false.
Proof.
  apply (filter_instances_refusal_keeps_connection accepting tt tt tt [("region", "eu")]);
    reflexivity.
Defined.

(** With a server that always hands out a connection and a cursor: a second
    call of [filter_instances] on the dictionary object that a first call
    was given is refused for the missing [table_name], whatever the
    dictionary held and however the first call ended. *)
Theorem filter_instances_second_call_refused {W} (h : handler W) (w : W)
    (filters : list (string * string)) :
  (forall w0, exists w1, h pg8000_connect w0 = (w1, inr tt)) ->
  (forall w0, exists w1, h conn_cursor w0 = (w1, inr tt)) ->
  let first := run h filter_instances w filters in
  let second := run h filter_instances (world first) (store first) in
  outcome second = inr (error_payload "'table_name' is required in filters parameter") /\
  executed (trace second) = [].
Proof.
  intros Hconn Hcur first second.
  assert (Hpopped : dict_get "table_name" (store first) = None).
  { pose proof (filter_instances_run h w filters) as Hrun. fold first in Hrun. cbv zeta in Hrun.
    destruct (Hconn w) as [w1 Hw1]. rewrite Hw1 in Hrun.
    destruct (Hcur w1) as [w2 Hw2]. rewrite Hw2 in Hrun.
    destruct (dict_get "table_name" filters) eqn:Hget.
    - destruct Hrun as [_ ->]. by rewrite dict_get_del.
    - by destruct Hrun as (_ & -> & _). }
  pose proof (filter_instances_run h (world first) (store first)) as Hrun.
  fold second in Hrun. cbv zeta in Hrun.
  destruct (Hconn (world first)) as [w1 Hw1]. rewrite Hw1 in Hrun.
  destruct (Hcur w1) as [w2 Hw2]. rewrite Hw2, Hpopped in Hrun.
  by destruct Hrun as (-> & _ & ->).
Qed.

Lemma filter_instances_second_call_refused_witness :
  let first := run accepting filter_instances tt [("table_name", "hosts"); ("region", "eu")] in
  outcome (run accepting filter_instances (world first) (store first))
  = inr (error_payload "'table_name' is required in filters parameter").
Proof.
  apply (filter_instances_second_call_refused accepting tt
           [("table_name", "hosts"); ("region", "eu")]);
    intros []; by exists tt.
Defined.

(** ** More on the catalogue tools *)

Global Instance by_name_total : Total by_name.
Proof. intros a b. apply String.leb_total. Qed.

Lemma statement_result_list_tables db :
  statement_result db list_tables_sql [] =
  inr ([("table_name", text_oid)],
       map (fun t => [VStr (tab_table_name t)]) (merge_sort by_name (public_tables db))).
Proof. reflexivity. Qed.

(** On the reference executor, for every database: [list_tables] returns
    the names of the tables of schema [public], each table once and no
    other, in the order of the names. *)
Theorem list_tables_public_sorted {S} (db : database) (s : S) :
  exists names,
    outcome (run postgres list_tables (fresh db) s) = inr (VList (map VStr names)) /\
    names ≡ₚ map tab_table_name (public_tables db) /\
    Sorted (fun a b => String.leb a b = true) names.
Proof.
  exists (map tab_table_name (merge_sort by_name (public_tables db))).
  split; [|split].
  - unfold list_tables, list_tables_try. cbn -[statement_result].
    rewrite statement_result_list_tables. cbn -[statement_result].
    rewrite (comprehension_map (fun row => subscript row 0)
               (fun t => [VStr (tab_table_name t)]) (fun t => VStr (tab_table_name t))) by done.
    cbn. by rewrite map_map.
  - by rewrite merge_sort_Permutation.
  - apply (Sorted_fmap tab_table_name by_name); [done|]. apply Sorted_merge_sort. apply _.
Qed.

(** On the reference executor, for every database: the [table_count] of
    [get_database_stats] is the number of tables of schema [public], and
    [largest_tables] has five entries or, with fewer tables, one per
    table. *)
Theorem get_database_stats_counts_agree {S} (db : database) (s : S) :
  exists stats largest,
    outcome (run postgres get_database_stats (fresh db) s) = inr (VDict stats) /\
    dict_get "table_count" stats = Some (VInt (Z.of_nat (length (public_tables db)))) /\
    dict_get "largest_tables" stats = Some (VList largest) /\
    length largest = Nat.min 5 (length (public_tables db)).
Proof.
  eexists _, _. split; [apply get_database_stats_postgres|].
  split; [done|]. split; [done|].
  unfold largest_tables_rows. by rewrite length_map, length_take, merge_sort_Permutation.
Qed.

(** ** Error payloads and the connection *)

(** Every tool, against every driver: an error payload is returned with
    [conn.close()] called only when the close itself raised, or when no
    driver call raised at all and the close was the last call; the latter
    happens in [execute_query] and [filter_instances] only, which normalize
    their rows after the close.  After any other failure with a connection
    opened, the connection is left open. *)
Theorem error_with_close_only_late {W} (h : handler W) (r : request) (w : W)
    (filters : list (string * string)) :
  let res := run h (tool r) w filters in
  (exists msg, outcome res = inr (error_payload msg)) ->
  released (trace res) = true ->
  close_raised (trace res) = true \/
  (formats_after_close r = true /\
   no_call_raised (trace res) = true /\
   last (calls_of (trace res)) = Some conn_close).
Proof.
  cbv zeta.
  drive_tool h r filters; intros [msg Hmsg] Hrel;
    first [ discriminate Hmsg | discriminate Hrel | by left | right; by repeat split ].
Qed.

Lemma error_with_close_only_late_witness :
  outcome (run (serving [("a", 23%Z); ("b", 23%Z)] [[VInt 1]])
             (tool (ExecuteQuery "select a, b from t")) tt [])
    = inr (error_payload "list index out of range") /\
  no_call_raised (trace (run (serving [("a", 23%Z); ("b", 23%Z)] [[VInt 1]])
                           (tool (ExecuteQuery "select a, b from t")) tt [])) = true.
Proof.
  split; [reflexivity|].
  destruct (error_with_close_only_late (serving [("a", 23%Z); ("b", 23%Z)] [[VInt 1]])
              (ExecuteQuery "select a, b from t") tt []) as [Hclose|(_ & Hquiet & _)].
  - exists "list index out of range". reflexivity.
  - reflexivity.
  - discriminate Hclose.
  - exact Hquiet.
Defined.
